(** * AgentBuffer: the per-agent trajectory buffer of ml-agents

    Shallow embedding of [ml-agents/mlagents/trainers/buffer.py].

    Python integers are [Z]; [//] and [%] are floor division and modulo
    ([Z.div], [Z.modulo]) and raise [ZeroDivisionError] on a zero divisor.
    A method is a computation in a state-and-exception monad over the object
    it is called on; as in Python, what was written before an exception was
    raised stays written. *)

From Stdlib Require Import ZArith List String Bool Lia Permutation.
Import ListNotations.
Open Scope Z_scope.

(** ** Exceptions *)

(** The three messages [BufferException] is raised with. *)
Inductive buffer_message : Type :=
| BatchTooLarge
    (* "The batch size and training length requested for get_batch where
        too large given the current number of data points." *)
| ShuffleLength
    (* "Unable to shuffle if the fields are not of same length" *)
| FieldsLength (key_list : list string).
    (* f"The length of the fields {key_list} were not of same length" *)

Inductive exn : Type :=
| BufferException (msg : buffer_message)
| ZeroDivisionError
| IndexError
| KeyError
| TypeError
| AttributeError
| ValueError.

(** The two error kinds the buffer reports. *)
Definition OutOfRangeBatch (e : exn) : Prop :=
  e = BufferException BatchTooLarge.

Definition LengthMismatch (e : exn) : Prop :=
  e = BufferException ShuffleLength \/
  exists key_list, e = BufferException (FieldsLength key_list).

(** ** State and exceptions *)

Definition M (S A : Type) : Type := S -> (exn + A) * S.

Definition ret {S A : Type} (a : A) : M S A := fun s => (inr a, s).

Definition bind {S A B : Type} (m : M S A) (k : A -> M S B) : M S B :=
  fun s =>
    match m s with
    | (inr a, s') => k a s'
    | (inl e, s') => (inl e, s')
    end.

Definition raise {S A : Type} (e : exn) : M S A := fun s => (inl e, s).

Definition get {S : Type} : M S S := fun s => (inr s, s).

Definition put {S : Type} (s : S) : M S unit := fun _ => (inr tt, s).

(** Runs a computation on a part of the state. *)
Definition zoom {S T A : Type} (proj : S -> T) (inj : T -> S -> S)
    (m : M T A) : M S A :=
  fun s => let (r, t) := m (proj s) in (r, inj t s).

Declare Scope py_scope.
Delimit Scope py_scope with py.
Notation "x <- m ;; k" := (bind m (fun x => k))
  (at level 61, m at next level, right associativity) : py_scope.
Notation "m ;; k" := (bind m (fun _ => k))
  (at level 61, right associativity) : py_scope.
Open Scope py_scope.

(** [for x in xs: body x] *)
Fixpoint for_each {S A : Type} (xs : list A) (body : A -> M S unit)
    : M S unit :=
  match xs with
  | [] => ret tt
  | x :: xs' => body x ;; for_each xs' body
  end.

(** ** Python integers and lists *)

Definition floordiv {S : Type} (a b : Z) : M S Z :=
  if b =? 0 then raise ZeroDivisionError else ret (a / b).

Definition pymod {S : Type} (a b : Z) : M S Z :=
  if b =? 0 then raise ZeroDivisionError else ret (a mod b).

Definition len {A : Type} (l : list A) : Z := Z.of_nat (List.length l).

(** A slice bound, as [PySlice_AdjustIndices] clamps it (step 1). *)
Definition clamp (n i : Z) : Z :=
  if i <? 0 then Z.max (i + n) 0 else Z.min i n.

(** [l[start:stop]]; [None] is an omitted bound. *)
Definition slice {A : Type} (start stop : option Z) (l : list A) : list A :=
  let n := len l in
  let lo := match start with Some i => clamp n i | None => 0 end in
  let hi := match stop with Some j => clamp n j | None => n end in
  firstn (Z.to_nat (hi - lo)) (skipn (Z.to_nat lo) l).

(** [[x] * k] *)
Definition replicate {A : Type} (x : A) (k : Z) : list A :=
  repeat x (Z.to_nat k).

(** [range(a, b)] and [np.arange(c)] *)
Definition range (a b : Z) : list Z :=
  map (fun i => a + Z.of_nat i) (seq 0 (Z.to_nat (b - a))).

Definition arange (c : Z) : list Z := range 0 c.

(** [l[-1]] *)
Definition last_item {S A : Type} (l : list A) : M S A :=
  match rev l with
  | [] => raise IndexError
  | x :: _ => ret x
  end.

(** ** What the buffer takes from numpy *)

(** Elements are arrays; [scale x p] is
    [np.array(x, dtype=np.float32) * p], and [zero] the scalar 0. *)
Class Numpy : Type := {
  elem : Type;
  scalar : Type;
  zero : scalar;
  scale : elem -> scalar -> elem
}.

(** The process-wide random source: [np.random.shuffle] on an index
    array, and [np.random.randint(high, size=size)]. *)
Class RandomState : Type := {
  rng : Type;
  random_shuffle : list Z -> rng -> list Z * rng;
  random_randint : Z -> Z -> rng -> (exn + list Z) * rng
}.

Class RandomStateLaws (R : RandomState) : Prop := {
  random_shuffle_perm :
    forall l g, Permutation (fst (random_shuffle l g)) l;
  random_randint_range :
    forall high size g, 0 < high -> 0 <= size ->
      exists l, fst (random_randint high size g) = inr l /\
        len l = size /\ Forall (fun i => 0 <= i < high) l
}.

(** ** AgentBufferField *)

Section Field.
Context {N : Numpy}.

(** A list with a [padding_value] attribute. *)
Record AgentBufferField : Type := mkField {
  items : list elem;
  padding_value : scalar
}.

(** [AgentBufferField()] *)
Definition new_field : AgentBufferField := mkField [] zero.

(** [self[:] = data] *)
Definition assign_items (data : list elem) : M AgentBufferField unit :=
  self <- get ;; put (mkField data (padding_value self)).

Definition append (element : elem) (padding : scalar)
    : M AgentBufferField unit :=
  self <- get ;; put (mkField (items self ++ [element]) padding).

Definition extend (data : list elem) : M AgentBufferField unit :=
  self <- get ;; put (mkField (items self ++ data) (padding_value self)).

Definition set (data : list elem) : M AgentBufferField unit :=
  assign_items [] ;; assign_items data.

Definition reset_field : M AgentBufferField unit := assign_items [].

(** [len(self) // training_length + 1 * (leftover != 0)] *)
Definition max_sequences (n training_length leftover : Z)
    : M AgentBufferField Z :=
  q <- floordiv n training_length ;;
  ret (q + 1 * Z.b2z (negb (leftover =? 0))).

(** [training_length] is [None] when [resequence_and_append] passes its
    default on. *)
Definition get_batch (batch_size training_length : option Z)
    (sequential : bool) : M AgentBufferField (list elem) :=
  self <- get ;;
  let n := len (items self) in
  match training_length with
  | None => raise TypeError
  | Some training_length =>
    if sequential then
      leftover <- pymod n training_length ;;
      batch_size <- match batch_size with
                    | None => max_sequences n training_length leftover
                    | Some b => ret b
                    end ;;
      bound <- max_sequences n training_length leftover ;;
      if batch_size >? bound then raise (BufferException BatchTooLarge)
      else if batch_size * training_length >? n then
        last <- last_item (items self) ;;
        let padding := scale last (padding_value self) in
        ret (replicate padding (training_length - leftover) ++ items self)
      else
        ret (slice (Some (n - batch_size * training_length)) None
               (items self))
    else
      let batch_size := match batch_size with
                        | None => n - training_length + 1
                        | Some b => b
                        end in
      if n - training_length + 1 <? batch_size
      then raise (BufferException BatchTooLarge)
      else
        ret (fold_left
               (fun tmp_list stop =>
                  tmp_list ++
                  slice (Some (stop - training_length)) (Some stop)
                    (items self))
               (range (n - batch_size + 1) (n + 1)) [])
  end.

End Field.

(** ** AgentBuffer *)

(** An insertion-ordered [dict] with string keys. *)
Definition dict (V : Type) : Type := list (string * V).

Fixpoint dict_get {V : Type} (key : string) (d : dict V) : option V :=
  match d with
  | [] => None
  | (k, v) :: d' => if String.eqb key k then Some v else dict_get key d'
  end.

(** [d[key] = v]: an existing key keeps its place, a new one goes last. *)
Fixpoint dict_set {V : Type} (key : string) (v : V) (d : dict V) : dict V :=
  match d with
  | [] => [(key, v)]
  | (k, v0) :: d' =>
      if String.eqb key k then (k, v) :: d' else (k, v0) :: dict_set key v d'
  end.

Definition dict_keys {V : Type} (d : dict V) : list string := map fst d.

(** The two values of the auxiliary slots are opaque to the buffer. *)
Class Rollout : Type := {
  brain_info : Type;
  action_outputs : Type
}.

(** Runs a method on a local object; the object is dropped when the
    method raises. *)
Definition local {S T A : Type} (m : M T A) (t : T) : M S (A * T) :=
  fun s =>
    match m t with
    | (inr a, t') => (inr (a, t'), s)
    | (inl e, _) => (inl e, s)
    end.

(** A loop that threads a local variable. *)
Fixpoint fold_for {S A B : Type} (xs : list A) (acc : B)
    (body : B -> A -> M S B) : M S B :=
  match xs with
  | [] => ret acc
  | x :: xs' => acc' <- body acc x ;; fold_for xs' acc' body
  end.

(** A list comprehension. *)
Fixpoint comprehension {S A B : Type} (xs : list A) (f : A -> M S B)
    : M S (list B) :=
  match xs with
  | [] => ret []
  | x :: xs' => y <- f x ;; ys <- comprehension xs' f ;; ret (y :: ys)
  end.

Section Buffer.
Context {N : Numpy} {R : RandomState} {L : Rollout}.

(** What a key of the buffer maps to: an [AgentBufferField], or the plain
    [list] a slice of one is (slicing a subclass of [list] gives a
    [list]). *)
Inductive entry : Type :=
| Field (f : AgentBufferField)
| PyList (l : list elem).

Definition entry_items (e : entry) : list elem :=
  match e with
  | Field f => items f
  | PyList l => l
  end.

(** [getattr(e, "padding_value")], where there is one. *)
Definition entry_padding (e : entry) : option scalar :=
  match e with
  | Field f => Some (padding_value f)
  | PyList _ => None
  end.

(** The object after [e[:] = data] and after [e.extend(data)]. *)
Definition entry_assign (data : list elem) (e : entry) : entry :=
  match e with
  | Field f => Field (mkField data (padding_value f))
  | PyList _ => PyList data
  end.

Definition entry_extend (data : list elem) (e : entry) : entry :=
  entry_assign (entry_items e ++ data) e.

Record AgentBuffer : Type := mkBuffer {
  entries : dict entry;
  last_brain_info : option brain_info;
  last_take_action_outputs : option action_outputs
}.

(** [AgentBuffer()] *)
Definition new_buffer : AgentBuffer := mkBuffer [] None None.

Definition keys : M AgentBuffer (list string) :=
  self <- get ;; ret (dict_keys (entries self)).

(** [dict.__setitem__], which the class does not override. *)
Definition setitem (key : string) (e : entry) : M AgentBuffer unit :=
  self <- get ;;
  put (mkBuffer (dict_set key e (entries self))
         (last_brain_info self) (last_take_action_outputs self)).

(** [self[key]]: creates the field on first access. *)
Definition getitem (key : string) : M AgentBuffer entry :=
  ks <- keys ;;
  (if negb (existsb (String.eqb key) ks)
   then setitem key (Field new_field)
   else ret tt) ;;
  self <- get ;;
  match dict_get key (entries self) with
  | Some e => ret e
  | None => raise KeyError
  end.

(** [self[key].m(...)] for a method [m] of [AgentBufferField]. *)
Definition call_field {A : Type} (key : string) (m : M AgentBufferField A)
    : M AgentBuffer A :=
  e <- getitem key ;;
  match e with
  | PyList _ => raise AttributeError
  | Field f =>
      let (r, f') := m f in
      setitem key (Field f') ;; (fun self => (r, self))
  end.

(** [self[key][:] = data] and [self[key].extend(data)], which a plain
    list has too. *)
Definition assign_slice (key : string) (data : list elem)
    : M AgentBuffer unit :=
  e <- getitem key ;; setitem key (entry_assign data e).

Definition extend_item (key : string) (data : list elem)
    : M AgentBuffer unit :=
  e <- getitem key ;; setitem key (entry_extend data e).

Definition reset_agent : M AgentBuffer unit :=
  ks <- keys ;;
  for_each ks (fun k => call_field k reset_field) ;;
  self <- get ;;
  put (mkBuffer (entries self) None (last_take_action_outputs self)) ;;
  self <- get ;;
  put (mkBuffer (entries self) (last_brain_info self) None).

Fixpoint check_length_loop (key_list : list string) (length : option Z)
    : M AgentBuffer bool :=
  match key_list with
  | [] => ret true
  | key :: rest =>
      ks <- keys ;;
      if negb (existsb (String.eqb key) ks) then ret false
      else
        mismatch <- match length with
                    | None => ret false
                    | Some l =>
                        e <- getitem key ;;
                        ret (negb (l =? len (entry_items e)))
                    end ;;
        if (mismatch : bool) then ret false
        else
          e <- getitem key ;;
          check_length_loop rest (Some (len (entry_items e)))
  end.

Definition check_length (key_list : list string) : M AgentBuffer bool :=
  if len key_list <? 2 then ret true
  else check_length_loop key_list None.

(** The property [num_experiences]. *)
Definition num_experiences : M AgentBuffer Z :=
  self <- get ;;
  match entries self with
  | [] => ret 0
  | (_, e) :: _ => ret (len (entry_items e))
  end.

Definition on_self {A : Type} (m : M AgentBuffer A)
    : M (AgentBuffer * rng) A :=
  zoom fst (fun b s => (b, snd s)) m.

Definition np_random_shuffle (s : list Z) : M (AgentBuffer * rng) (list Z) :=
  fun w => let (s', g) := random_shuffle s (snd w) in (inr s', (fst w, g)).

Definition np_random_randint (high size : Z)
    : M (AgentBuffer * rng) (list Z) :=
  fun w => let (r, g) := random_randint high size (snd w) in (r, (fst w, g)).

Definition shuffle (sequence_length : Z) (key_list : option (list string))
    : M (AgentBuffer * rng) unit :=
  key_list <- match key_list with
              | None => on_self keys
              | Some ks => ret ks
              end ;;
  ok <- on_self (check_length key_list) ;;
  if negb ok then raise (BufferException ShuffleLength)
  else
    key0 <- match key_list with
            | [] => raise IndexError
            | k :: _ => ret k
            end ;;
    e0 <- on_self (getitem key0) ;;
    c <- floordiv (len (entry_items e0)) sequence_length ;;
    s <- np_random_shuffle (arange c) ;;
    for_each key_list (fun key =>
      tmp <- fold_for s [] (fun tmp i =>
               e <- on_self (getitem key) ;;
               ret (tmp ++ slice (Some (i * sequence_length))
                             (Some ((i + 1) * sequence_length))
                             (entry_items e))) ;;
      on_self (assign_slice key tmp)).

Definition make_mini_batch (start stop : Z) : M AgentBuffer AgentBuffer :=
  ks <- keys ;;
  fold_for ks new_buffer (fun mini_batch key =>
    e <- getitem key ;;
    r <- local (setitem key (PyList (slice (Some start) (Some stop)
                                       (entry_items e)))) mini_batch ;;
    ret (snd r)).

Definition sample_mini_batch (batch_size sequence_length : Z)
    : M (AgentBuffer * rng) AgentBuffer :=
  num_seq_to_sample <- floordiv batch_size sequence_length ;;
  buff_len <- on_self num_experiences ;;
  num_sequences_in_buffer <- floordiv buff_len sequence_length ;;
  draws <- np_random_randint num_sequences_in_buffer num_seq_to_sample ;;
  let start_idxes := map (fun i => i * sequence_length) draws in
  ks <- on_self keys ;;
  fold_for ks new_buffer (fun mini_batch key =>
    mb_list <- comprehension start_idxes (fun i =>
                 e <- on_self (getitem key) ;;
                 ret (slice (Some i) (Some (i + sequence_length))
                        (entry_items e))) ;;
    r <- local (call_field key (set (List.concat mb_list))) mini_batch ;;
    ret (snd r)).

Definition truncate (max_length sequence_length : Z) : M AgentBuffer unit :=
  current_length <- num_experiences ;;
  r <- pymod max_length sequence_length ;;
  let max_length := max_length - r in
  if current_length >? max_length then
    ks <- keys ;;
    for_each ks (fun _key =>
      e <- getitem _key ;;
      assign_slice _key
        (slice (Some (current_length - max_length)) None (entry_items e)))
  else ret tt.

(** Buffers are objects: the receiver and the target of
    [resequence_and_append] are references into a heap, and may be the
    same object. *)
Definition heap : Type := nat -> AgentBuffer.

Definition at_ref {A : Type} (r : nat) (m : M AgentBuffer A) : M heap A :=
  zoom (fun h => h r) (fun b h r' => if Nat.eqb r' r then b else h r') m.

(** [target_buffer[field_key]] is evaluated before the call of
    [get_batch], whose result the object is then extended with. *)
Definition resequence_and_append (self target_buffer : nat)
    (key_list : option (list string)) (batch_size training_length : option Z)
    : M heap unit :=
  key_list <- match key_list with
              | None => at_ref self keys
              | Some ks => ret ks
              end ;;
  ok <- at_ref self (check_length key_list) ;;
  if negb ok then raise (BufferException (FieldsLength key_list))
  else
    for_each key_list (fun field_key =>
      at_ref target_buffer (getitem field_key) ;;
      batch <- at_ref self
                 (call_field field_key
                    (get_batch batch_size training_length true)) ;;
      at_ref target_buffer (extend_item field_key batch)).

End Buffer.

(** ** The static methods *)

(** [zip] of the lists of [ls], each an argument: the tuples stop with the
    shortest list, and no list gives no tuple. *)
Fixpoint zip_star {A : Type} (ls : list (list A)) : list (list A) :=
  match ls with
  | [] => []
  | l :: rest =>
      match rest with
      | [] => map (fun x => [x]) l
      | _ :: _ => map (fun p => fst p :: snd p) (combine l (zip_star rest))
      end
  end.

(** [np.asanyarray(list(x))]: the arrays of a tuple as one array. *)
Class Stacking {N : Numpy} : Type := {
  stacked : Type;
  asanyarray : list elem -> stacked
}.

Section StaticMethods.
Context {N : Numpy} {K : Stacking}.

Definition obs_list_to_obs_batch (obs_list : list (list elem))
    : list stacked :=
  map asanyarray (zip_star obs_list).

Definition obs_list_list_to_obs_batch
    (obs_list_list : list (list (list elem))) : list (list stacked) :=
  map obs_list_to_obs_batch (zip_star obs_list_list).

End StaticMethods.

(** * The vocabulary of the properties *)

(** The number of [t]-sized groups [n] items fill, the last one maybe
    partly. *)
Definition ceil_div (n t : Z) : Z := (n + t - 1) / t.

(** Exceptions a computation cannot raise. *)
Definition avoids {S A : Type} (P : exn -> Prop) (m : M S A) : Prop :=
  forall s e, fst (m s) = inl e -> ~ P e.

Section FieldVocabulary.
Context {N : Numpy}.

(** The [training_length] items that end at position [stop]. *)
Definition window (training_length stop : Z) (l : list elem) : list elem :=
  firstn (Z.to_nat training_length)
    (skipn (Z.to_nat (stop - training_length)) l).

(** The bound the claim gives for the batch size. *)
Definition max_batch_size (n training_length : Z) (sequential : bool) : Z :=
  if sequential
  then n / training_length + (if n mod training_length =? 0 then 0 else 1)
  else n - training_length + 1.

End FieldVocabulary.

Section BufferVocabulary.
Context {N : Numpy} {R : RandomState} {L : Rollout}.
Implicit Types buf : AgentBuffer.

(** The buffer after [dict.__setitem__]. *)
Definition store (k : string) (e : entry) buf : AgentBuffer :=
  mkBuffer (dict_set k e (entries buf))
    (last_brain_info buf) (last_take_action_outputs buf).

(** The buffer after the object under [k] went through [F]. *)
Definition touch (F : entry -> entry) (k : string) buf : AgentBuffer :=
  match dict_get k (entries buf) with
  | Some e => store k (F e) buf
  | None => buf
  end.

(** Every name in [ks] is a key, and its items are [n]. *)
Definition same_length buf (ks : list string) (n : Z) : Prop :=
  forall k, In k ks ->
    exists e, dict_get k (entries buf) = Some e /\ len (entry_items e) = n.

(** Every value is an [AgentBufferField]. *)
Definition all_fields buf : Prop :=
  forall k e, dict_get k (entries buf) = Some e -> exists f, e = Field f.

(** The value is an [AgentBufferField]. *)
Definition is_field (e : entry) : Prop := exists f, e = Field f.

(** The [k] most recent items. *)
Definition suffix (k : Z) (l : list elem) : list elem :=
  skipn (List.length l - Z.to_nat k) l.

(** The [i]-th run of [sequence_length] items, and the runs taken in the
    order [perm] gives. *)
Definition chunk (sequence_length i : Z) (l : list elem) : list elem :=
  firstn (Z.to_nat sequence_length) (skipn (Z.to_nat (i * sequence_length)) l).

Definition reorder (sequence_length : Z) (perm : list Z) (l : list elem)
    : list elem :=
  flat_map (fun i => chunk sequence_length i l) perm.


(** Every value is a field with the padding value of a new field. *)
Definition fresh_fields buf : Prop :=
  forall k e, dict_get k (entries buf) = Some e ->
    exists data, e = Field (mkField data zero).

(** The items [sample_mini_batch] puts under a key. *)
Definition sampled (sequence_length : Z) (start_idxes : list Z) buf
    (key : string) : entry :=
  Field (mkField
           (List.concat
              (map (fun i =>
                      slice (Some i) (Some (i + sequence_length))
                        (match dict_get key (entries buf) with
                         | Some e => entry_items e
                         | None => []
                         end))
                 start_idxes))
           zero).

End BufferVocabulary.

Section MoreVocabulary.
Context {N : Numpy} {R : RandomState} {L : Rollout}.

(** How many items [get_batch] returns with [sequential] true, for a
    batch size that is not over the maximum. *)
Definition sequential_items (n t : Z) (b : option Z) : Z :=
  match b with
  | Some b0 => if b0 * t >? n then ceil_div n t * t else Z.max 0 (b0 * t)
  | None => ceil_div n t * t
  end.

(** The items under a key, none when the key is not there. *)
Definition items_under (k : string) (buf : AgentBuffer) : list elem :=
  match dict_get k (entries buf) with
  | Some e => entry_items e
  | None => []
  end.

End MoreVocabulary.

(** ** A concrete numpy: integer scalars as elements *)

#[local] Instance ZNumpy : Numpy :=
  {| elem := Z; scalar := Z; zero := 0; scale := Z.mul |}.

(** A deterministic random source: every shuffle reverses, draws walk
    through the range. *)
#[local] Instance CounterRandom : RandomState :=
  {| rng := nat;
     random_shuffle := fun l g => (rev l, S g);
     random_randint := fun high size g =>
       if (0 <? high) && (0 <=? size)
       then (inr (map (fun i => Z.of_nat (g + i) mod high)
                    (seq 0 (Z.to_nat size))), S g)
       else (inl ValueError, g) |}.

#[local] Instance UnitRollout : Rollout :=
  {| brain_info := unit; action_outputs := unit |}.

(** Stacking that keeps the list of the arrays. *)
#[local] Instance ListStacking : Stacking :=
  {| stacked := list Z; asanyarray := fun l => l |}.

(** ** Buffers to run the operations on *)

Definition five_items : AgentBufferField := mkField [1; 2; 3; 4; 5] 7.

Definition two_items : AgentBufferField := mkField [1; 2] 7.

Definition two_fields : AgentBuffer :=
  mkBuffer [("a"%string, Field two_items);
            ("b"%string, Field (mkField [11; 12] 1))] None None.

(** What [make_mini_batch(0, 2)] returns on [two_fields]: the keys with
    the slices of the items, plain lists. *)
Definition two_lists : AgentBuffer :=
  mkBuffer [("a"%string, PyList [1; 2]); ("b"%string, PyList [11; 12])]
    None None.

Definition unequal_fields : AgentBuffer :=
  mkBuffer [("a"%string, Field (mkField [1; 2; 3; 4; 5] 7));
            ("b"%string, Field (mkField [11; 12; 13; 14; 15; 16; 17] 1))]
    None None.

(** The observations of two agents, two channels each. *)
Definition two_agents : list (list elem) := [[1; 2]; [3; 4]].

(** Two time steps of [two_agents]. *)
Definition two_steps : list (list (list elem)) :=
  [two_agents; [[5; 6]; [7; 8]]].

(** [two_fields] at reference 0; every other reference is an empty
    buffer. *)
Definition two_fields_heap : heap :=
  fun r =>
    match r with
    | O => two_fields
    | _ => new_buffer
    end.

(** A source buffer at reference 0; every other reference is an empty
    buffer. *)
Definition two_buffers : heap :=
  fun r =>
    match r with
    | O => mkBuffer [("obs"%string, Field (mkField [1; 2] 7))] None None
    | _ => new_buffer
    end.

(** * Properties *)

(** ** Lists and slices *)

Section ListFacts.
Context {A : Type}.
Implicit Types l : list A.

Lemma len_nonneg l : 0 <= len l.
Proof. unfold len. lia. Qed.

Lemma len_app l1 l2 : len (l1 ++ l2) = len l1 + len l2.
Proof. unfold len. rewrite length_app. lia. Qed.

Lemma len_replicate (x : A) k : 0 <= k -> len (replicate x k) = k.
Proof. intros Hk. unfold len, replicate. rewrite repeat_length. lia. Qed.

(** A slice from a position that is not negative drops that many items. *)
Lemma slice_from k l :
  0 <= k -> slice (Some k) None l = skipn (Z.to_nat k) l.
Proof.
  intros Hk. unfold slice, clamp.
  destruct (Z.ltb_spec k 0) as [?|_]; [lia|].
  pose proof (len_nonneg l) as Hn. unfold len in *.
  destruct (Z.le_gt_cases k (Z.of_nat (List.length l))) as [Hle|Hgt].
  - rewrite Z.min_l by lia. apply firstn_all2.
    rewrite length_skipn. lia.
  - rewrite Z.min_r by lia. rewrite Nat2Z.id, skipn_all.
    rewrite skipn_all2 by lia. apply firstn_nil.
Qed.

(** Between two positions that are not negative, a slice is a window. *)
Lemma slice_window i j l :
  0 <= i <= j ->
  slice (Some i) (Some j) l
  = firstn (Z.to_nat (j - i)) (skipn (Z.to_nat i) l).
Proof.
  intros [Hi Hij]. unfold slice, clamp.
  destruct (Z.ltb_spec i 0) as [?|_]; [lia|].
  destruct (Z.ltb_spec j 0) as [?|_]; [lia|].
  unfold len.
  destruct (Z.le_gt_cases j (Z.of_nat (List.length l))) as [Hj|Hj].
  - rewrite !Z.min_l by lia. reflexivity.
  - destruct (Z.le_gt_cases i (Z.of_nat (List.length l))) as [Hl|Hl].
    + rewrite (Z.min_l i), (Z.min_r j) by lia.
      rewrite !firstn_all2; [reflexivity | |]; rewrite length_skipn; lia.
    + rewrite !Z.min_r by lia. rewrite Nat2Z.id, skipn_all.
      rewrite skipn_all2 by lia. now rewrite !firstn_nil.
Qed.

Lemma last_item_snoc {S : Type} l (x : A) (s : S) :
  last_item (l ++ [x]) s = (inr x, s).
Proof. unfold last_item. rewrite rev_app_distr. reflexivity. Qed.

Lemma fold_left_windows (w : Z -> list A) stops acc :
  fold_left (fun tmp stop => tmp ++ w stop) stops acc
  = acc ++ flat_map w stops.
Proof.
  revert acc. induction stops as [|s stops IH]; intros acc; simpl.
  - now rewrite app_nil_r.
  - rewrite IH. now rewrite app_assoc.
Qed.

Lemma flat_map_agree {B : Type} (f g : B -> list A) (xs : list B) :
  (forall x, In x xs -> f x = g x) -> flat_map f xs = flat_map g xs.
Proof.
  induction xs as [|x xs IH]; intros H; simpl; [reflexivity|].
  rewrite (H x) by now left. f_equal. apply IH.
  intros y Hy. apply H. now right.
Qed.

End ListFacts.

Lemma in_range a b i : In i (range a b) <-> a <= i < b.
Proof.
  unfold range. rewrite in_map_iff. split.
  - intros (k & <- & Hk). apply in_seq in Hk. lia.
  - intros H. exists (Z.to_nat (i - a)). split; [lia|].
    apply in_seq. lia.
Qed.

Lemma len_range a b : a <= b -> len (range a b) = b - a.
Proof.
  intros H. unfold len, range. rewrite length_map, length_seq. lia.
Qed.

Lemma ceil_div_exact n t : 0 < t -> n mod t = 0 -> ceil_div n t * t = n.
Proof.
  intros Ht Hr. unfold ceil_div.
  pose proof (Z.div_mod n t ltac:(lia)) as Hn. rewrite Hr in Hn.
  rewrite <- (Z.div_unique (n + t - 1) t (n / t) (t - 1)); lia.
Qed.

Lemma ceil_div_partial n t :
  0 < t -> n mod t <> 0 -> ceil_div n t * t = n + (t - n mod t).
Proof.
  intros Ht Hr. unfold ceil_div.
  pose proof (Z.div_mod n t ltac:(lia)) as Hn.
  pose proof (Z.mod_pos_bound n t Ht) as Hb.
  rewrite <- (Z.div_unique (n + t - 1) t (n / t + 1) (n mod t - 1)); lia.
Qed.

(** ** get_batch *)

Section FieldFacts.
Context {N : Numpy}.
Implicit Types self : AgentBufferField.

(** No path of [get_batch] writes to the field. *)
Lemma get_batch_frame batch_size training_length sequential self :
  snd (get_batch batch_size training_length sequential self) = self.
Proof.
  cbv [get_batch bind get ret raise pymod floordiv max_sequences last_item].
  repeat (cbv beta iota zeta;
          match goal with
          | |- context [match ?x with _ => _ end] =>
              lazymatch type of x with
              | bool => destruct x
              | option _ => destruct x
              | list _ => destruct x
              end
          end);
    reflexivity.
Qed.

(** C1: with [sequential] true and no [batch_size], a field of [n > 0]
    items and training length [t] gives [ceil(n/t) * t] items: if
    [n mod t <> 0], [t - n mod t] copies of the last item scaled by the
    padding value and then the [n] items in order; if [n mod t = 0], the
    [n] items and no padding. *)
Theorem get_batch_sequential_default self t :
  let n := len (items self) in
  0 < n -> 1 <= t ->
  exists batch init last,
    get_batch None (Some t) true self = (inr batch, self) /\
    len batch = ceil_div n t * t /\
    items self = init ++ [last] /\
    (n mod t <> 0 ->
     batch = repeat (scale last (padding_value self))
               (Z.to_nat (t - n mod t)) ++ items self) /\
    (n mod t = 0 -> batch = items self).
Proof.
  intros n Hn Ht.
  destruct (exists_last (l := items self)) as (init & last & Hsnoc).
  { intros E. subst n. rewrite E in Hn. discriminate. }
  pose proof (Z.div_mod n t ltac:(lia)) as Hdm.
  pose proof (Z.mod_pos_bound n t ltac:(lia)) as Hr.
  cbv [get_batch bind get ret raise pymod floordiv max_sequences].
  fold n.
  destruct (Z.eqb_spec t 0) as [?|_]; [lia|]. cbv beta iota.
  destruct (Z.gtb_spec (n / t + 1 * Z.b2z (negb (n mod t =? 0)))
              (n / t + 1 * Z.b2z (negb (n mod t =? 0)))) as [?|_]; [lia|].
  destruct (Z.eqb_spec (n mod t) 0) as [E0|E0]; cbn [negb Z.b2z].
  - destruct (Z.gtb_spec ((n / t + 1 * 0) * t) n) as [?|_]; [lia|].
    replace (n - (n / t + 1 * 0) * t) with 0 by lia.
    rewrite slice_from by lia. cbn [Z.to_nat skipn].
    exists (items self), init, last. repeat split; auto.
    + fold n. now rewrite ceil_div_exact by lia.
    + intros; contradiction.
  - destruct (Z.gtb_spec ((n / t + 1 * 1) * t) n) as [_|?]; [|lia].
    assert (Hlast : last_item (items self) self = (inr last, self))
      by (rewrite Hsnoc; apply last_item_snoc).
    rewrite Hlast.
    exists (replicate (scale last (padding_value self)) (t - n mod t)
              ++ items self), init, last.
    repeat split; auto.
    + rewrite len_app, len_replicate by lia. fold n.
      rewrite ceil_div_partial by lia. lia.
    + intros; contradiction.
Qed.

(** C2: with [sequential] false and [1 <= b <= n - t + 1], the result is
    the windows of [t] items that end at [n - b + 1], ..., [n], in that
    order, one after the other; for five items, [t = 2] and [b = 4] it is
    [e0,e1, e1,e2, e2,e3, e3,e4]. *)
Theorem get_batch_overlapping self b t :
  let n := len (items self) in
  0 <= t -> 1 <= b <= n - t + 1 ->
  get_batch (Some b) (Some t) false self
  = (inr (flat_map (fun e => window t e (items self))
            (range (n - b + 1) (n + 1))), self) /\
  forall e0 e1 e2 e3 e4 p,
    get_batch (Some 4) (Some 2) false (mkField [e0; e1; e2; e3; e4] p)
    = (inr [e0; e1; e1; e2; e2; e3; e3; e4],
       mkField [e0; e1; e2; e3; e4] p).
Proof.
  intros n Ht Hb. split; [|reflexivity].
  cbv [get_batch bind get ret raise]. fold n.
  destruct (Z.ltb_spec (n - t + 1) b) as [?|_]; [lia|].
  rewrite fold_left_windows. cbn [app]. do 2 f_equal.
  apply flat_map_agree. intros e He. apply in_range in He.
  rewrite slice_window by lia. unfold window. do 2 f_equal. lia.
Qed.

(** C3: [get_batch] raises the out-of-range error exactly when the
    requested batch size is over the maximum: [floor(n/t)], plus one when
    [n mod t <> 0], with [sequential] true, and [n - t + 1] with
    [sequential] false; and, error or not, the items and the padding
    value of the field are what they were. *)
Theorem get_batch_out_of_range self b t sequential :
  let n := len (items self) in
  (sequential = true -> t <> 0) ->
  ((exists e, fst (get_batch (Some b) (Some t) sequential self) = inl e /\
              OutOfRangeBatch e)
   <-> b > max_batch_size n t sequential) /\
  (forall batch_size training_length seq,
     snd (get_batch batch_size training_length seq self) = self).
Proof.
  intros n Ht. split; [|intros; apply get_batch_frame].
  cbv [get_batch bind get ret raise pymod floordiv max_sequences
         max_batch_size OutOfRangeBatch].
  fold n. destruct sequential.
  - destruct (Z.eqb_spec t 0) as [E|_]; [now elim Ht|]. cbv beta iota.
    replace (n / t + 1 * Z.b2z (negb (n mod t =? 0)))
      with (n / t + (if n mod t =? 0 then 0 else 1))
      by (destruct (n mod t =? 0); reflexivity).
    destruct (Z.gtb_spec b (n / t + (if n mod t =? 0 then 0 else 1)))
      as [Hgt|Hle]; cbn [fst].
    + split; [lia | eauto].
    + split; [|lia]. intros (e & He & ->). exfalso.
      destruct (_ >? _); [|discriminate].
      unfold last_item in He. destruct (rev (items self)); discriminate.
  - destruct (Z.ltb_spec (n - t + 1) b) as [Hlt|Hge]; cbn [fst].
    + split; [lia | eauto].
    + split; [|lia]. intros (e & He & _). discriminate.
Qed.

End FieldFacts.

(** ** Dictionaries *)

Section DictFacts.
Context {V : Type}.
Implicit Types d : dict V.

Lemma dict_get_mem k d v :
  dict_get k d = Some v -> existsb (String.eqb k) (dict_keys d) = true.
Proof.
  induction d as [|[k0 v0] d IH]; simpl; [discriminate|].
  destruct (String.eqb k k0); [reflexivity | exact IH].
Qed.

Lemma dict_get_not_mem k d :
  dict_get k d = None -> existsb (String.eqb k) (dict_keys d) = false.
Proof.
  induction d as [|[k0 v0] d IH]; simpl; [reflexivity|].
  destruct (String.eqb k k0); [discriminate | exact IH].
Qed.

Lemma dict_get_in_keys k d :
  In k (dict_keys d) <-> exists v, dict_get k d = Some v.
Proof.
  induction d as [|[k0 v0] d IH]; simpl.
  - split; [contradiction | intros [v Hv]; discriminate].
  - destruct (String.eqb_spec k k0) as [->|Hne].
    + split; eauto.
    + rewrite <- IH. split; [intros [E|H]; [congruence | exact H] | auto].
Qed.

Lemma dict_get_set_same k v d : dict_get k (dict_set k v d) = Some v.
Proof.
  induction d as [|[k0 v0] d IH]; simpl.
  - now rewrite String.eqb_refl.
  - destruct (String.eqb k k0) eqn:E; simpl; rewrite E; auto.
Qed.

Lemma dict_get_set_other k k' v d :
  k' <> k -> dict_get k' (dict_set k v d) = dict_get k' d.
Proof.
  intros Hne. induction d as [|[k0 v0] d IH]; simpl.
  - destruct (String.eqb_spec k' k); [contradiction | reflexivity].
  - destruct (String.eqb_spec k k0) as [->|Hk]; simpl.
    + destruct (String.eqb_spec k' k0); [contradiction | reflexivity].
    + destruct (String.eqb k' k0); auto.
Qed.

Lemma dict_keys_set k v v0 d :
  dict_get k d = Some v0 -> dict_keys (dict_set k v d) = dict_keys d.
Proof.
  induction d as [|[k1 v1] d IH]; simpl; [discriminate|].
  destruct (String.eqb k k1); simpl; intros H; [reflexivity|].
  f_equal. exact (IH H).
Qed.

End DictFacts.

(** ** The monad *)

Section MonadFacts.
Context {S : Type}.

Lemma bind_run {A B : Type} (m : M S A) (k : A -> M S B) s a s' :
  m s = (inr a, s') -> bind m k s = k a s'.
Proof. intros H. unfold bind. now rewrite H. Qed.

Lemma bind_raise {A B : Type} (m : M S A) (k : A -> M S B) s e s' :
  m s = (inl e, s') -> bind m k s = (inl e, s').
Proof. intros H. unfold bind. now rewrite H. Qed.

Lemma bind_ret {A : Type} (m : M S unit) (a : A) s s' :
  m s = (inr tt, s') -> bind m (fun _ => ret a) s = (inr a, s').
Proof. intros H. unfold bind. now rewrite H. Qed.

(** A loop whose body never raises under an invariant is a fold. *)
Lemma for_each_run {A : Type} (body : A -> M S unit) (step : A -> S -> S)
    (I : S -> Prop) xs :
  (forall x s, In x xs -> I s ->
     body x s = (inr tt, step x s) /\ I (step x s)) ->
  forall s, I s ->
    for_each xs body s = (inr tt, fold_left (fun s x => step x s) xs s) /\
    I (fold_left (fun s x => step x s) xs s).
Proof.
  induction xs as [|x xs IH]; intros Hbody s Hs; simpl.
  - split; [reflexivity | exact Hs].
  - destruct (Hbody x s (or_introl eq_refl) Hs) as [Hrun Hinv].
    rewrite (bind_run _ _ _ _ _ Hrun).
    apply IH; [|exact Hinv].
    intros y s0 Hy. apply Hbody. now right.
Qed.

Lemma fold_for_run {A B : Type} (body : B -> A -> M S B) (f : B -> A -> B)
    xs s :
  (forall acc x, In x xs -> body acc x s = (inr (f acc x), s)) ->
  forall acc, fold_for xs acc body s = (inr (fold_left f xs acc), s).
Proof.
  induction xs as [|x xs IH]; intros Hbody acc; simpl; [reflexivity|].
  rewrite (bind_run _ _ _ _ _ (Hbody acc x (or_introl eq_refl))).
  apply IH. intros acc' y Hy. apply Hbody. now right.
Qed.

Lemma comprehension_run {A B : Type} (f : A -> M S B) (g : A -> B) xs s :
  (forall x, In x xs -> f x s = (inr (g x), s)) ->
  comprehension xs f s = (inr (map g xs), s).
Proof.
  induction xs as [|x xs IH]; intros Hf; simpl; [reflexivity|].
  rewrite (bind_run _ _ _ _ _ (Hf x (or_introl eq_refl))).
  rewrite (bind_run _ _ _ _ _ (IH (fun y Hy => Hf y (or_intror Hy)))).
  reflexivity.
Qed.

Lemma avoids_ret {A : Type} P (a : A) : avoids (S := S) P (ret a).
Proof. intros s e H. discriminate. Qed.

Lemma avoids_raise {A : Type} (P : exn -> Prop) e :
  ~ P e -> avoids (S := S) P (raise (A := A) e).
Proof. intros Hn s e' H. injection H as <-. exact Hn. Qed.

Lemma avoids_get P : avoids (S := S) P get.
Proof. intros s e H. discriminate. Qed.

Lemma avoids_put P (s0 : S) : avoids P (put s0).
Proof. intros s e H. discriminate. Qed.

Lemma avoids_bind {A B : Type} P (m : M S A) (k : A -> M S B) :
  avoids P m -> (forall a, avoids P (k a)) -> avoids P (bind m k).
Proof.
  intros Hm Hk s e. unfold bind.
  destruct (m s) as [[e0|a] s'] eqn:E; simpl.
  - intros H. injection H as <-. apply (Hm s). now rewrite E.
  - apply Hk.
Qed.

Lemma avoids_for_each {A : Type} P xs (body : A -> M S unit) :
  (forall x, avoids P (body x)) -> avoids P (for_each xs body).
Proof.
  intros Hb. induction xs as [|x xs IH]; simpl.
  - apply avoids_ret.
  - apply avoids_bind; auto.
Qed.

Lemma avoids_fold_for {A B : Type} P xs (body : B -> A -> M S B) :
  (forall acc x, avoids P (body acc x)) ->
  forall acc, avoids P (fold_for xs acc body).
Proof.
  intros Hb. induction xs as [|x xs IH]; intros acc; simpl.
  - apply avoids_ret.
  - apply avoids_bind; auto.
Qed.

Lemma avoids_floordiv P a b :
  ~ P ZeroDivisionError -> avoids P (floordiv (S := S) a b).
Proof.
  intros Hn. unfold floordiv.
  destruct (b =? 0); [now apply avoids_raise | apply avoids_ret].
Qed.

Lemma avoids_pymod P a b :
  ~ P ZeroDivisionError -> avoids P (pymod (S := S) a b).
Proof.
  intros Hn. unfold pymod.
  destruct (b =? 0); [now apply avoids_raise | apply avoids_ret].
Qed.

Lemma avoids_last_item {A : Type} P (l : list A) :
  ~ P IndexError -> avoids P (last_item (S := S) l).
Proof.
  intros Hn. unfold last_item.
  destruct (rev l); [now apply avoids_raise | apply avoids_ret].
Qed.

End MonadFacts.

Lemma avoids_zoom {S T A : Type} P (proj : S -> T) (inj : T -> S -> S)
    (m : M T A) :
  avoids P m -> avoids P (zoom proj inj m).
Proof.
  intros Hm s e. unfold zoom.
  destruct (m (proj s)) as [r t] eqn:E. simpl. intros ->.
  apply (Hm (proj s)). now rewrite E.
Qed.

Lemma not_mismatch_batch : ~ LengthMismatch (BufferException BatchTooLarge).
Proof. intros [H|[ks H]]; discriminate. Qed.

Lemma not_mismatch_other e :
  (forall msg, e <> BufferException msg) -> ~ LengthMismatch e.
Proof. intros H [E|[ks E]]; exact (H _ E). Qed.

Create HintDb avoids.
#[local] Hint Resolve avoids_ret avoids_get avoids_put not_mismatch_batch :
  avoids.
#[local] Hint Extern 1 (~ LengthMismatch _) =>
  (apply not_mismatch_other; intros; discriminate) : avoids.
#[local] Hint Extern 1 (avoids _ (raise _)) => apply avoids_raise : avoids.
#[local] Hint Extern 1 (avoids _ (floordiv _ _)) =>
  apply avoids_floordiv : avoids.
#[local] Hint Extern 1 (avoids _ (pymod _ _)) => apply avoids_pymod : avoids.
#[local] Hint Extern 1 (avoids _ (last_item _)) =>
  apply avoids_last_item : avoids.

(** Walks through a computation, one bind or branch at a time. *)
Ltac avoid_step :=
  match goal with
  | |- avoids _ (bind _ _) => apply avoids_bind; [|intros]
  | |- forall _, _ => intros
  | |- avoids _ (for_each _ _) => apply avoids_for_each; intros
  | |- avoids _ (fold_for _ _ _) => apply avoids_fold_for; intros
  | |- avoids _ (zoom _ _ _) => apply avoids_zoom
  | |- avoids _ (match ?x with _ => _ end) => destruct x
  | |- avoids _ (let (_, _) := ?x in _) => destruct x
  end.

Ltac avoid := repeat avoid_step; auto with avoids.

(** ** Buffers *)

Section BufferFacts.
Context {N : Numpy} {R : RandomState} {L : Rollout}.
Implicit Types buf : AgentBuffer.

Lemma keys_run buf : keys buf = (inr (dict_keys (entries buf)), buf).
Proof. reflexivity. Qed.

Lemma setitem_run k e buf : setitem k e buf = (inr tt, store k e buf).
Proof. reflexivity. Qed.

Lemma getitem_present k e buf :
  dict_get k (entries buf) = Some e -> getitem k buf = (inr e, buf).
Proof.
  intros H. cbv [getitem keys bind get ret].
  rewrite (dict_get_mem _ _ _ H). cbn [negb]. now rewrite H.
Qed.

Lemma assign_slice_present k e data buf :
  dict_get k (entries buf) = Some e ->
  assign_slice k data buf = (inr tt, store k (entry_assign data e) buf).
Proof.
  intros H. unfold assign_slice.
  now rewrite (bind_run _ _ _ _ _ (getitem_present _ _ _ H)).
Qed.

Lemma touch_get_same F k e buf :
  dict_get k (entries buf) = Some e ->
  dict_get k (entries (touch F k buf)) = Some (F e).
Proof.
  intros H. unfold touch. rewrite H. simpl. apply dict_get_set_same.
Qed.

Lemma touch_get_other F k k' buf :
  k' <> k ->
  dict_get k' (entries (touch F k buf)) = dict_get k' (entries buf).
Proof.
  intros Hne. unfold touch.
  destruct (dict_get k (entries buf)); [|reflexivity].
  simpl. now apply dict_get_set_other.
Qed.

Lemma touch_keys F k buf :
  dict_keys (entries (touch F k buf)) = dict_keys (entries buf).
Proof.
  unfold touch. destruct (dict_get k (entries buf)) eqn:E; [|reflexivity].
  simpl. eapply dict_keys_set, E.
Qed.

Lemma touch_slots F k buf :
  last_brain_info (touch F k buf) = last_brain_info buf /\
  last_take_action_outputs (touch F k buf) = last_take_action_outputs buf.
Proof. unfold touch. destruct (dict_get k (entries buf)); now split. Qed.

(** What a loop of [touch] leaves under each key. *)
Lemma touch_all_keys F ks buf :
  dict_keys (entries (fold_left (fun b k => touch F k b) ks buf))
  = dict_keys (entries buf).
Proof.
  revert buf. induction ks as [|k ks IH]; intros buf; simpl; [reflexivity|].
  now rewrite IH, touch_keys.
Qed.

Lemma touch_all_slots F ks buf :
  let buf' := fold_left (fun b k => touch F k b) ks buf in
  last_brain_info buf' = last_brain_info buf /\
  last_take_action_outputs buf' = last_take_action_outputs buf.
Proof.
  revert buf. induction ks as [|k ks IH]; intros buf; simpl; [now split|].
  destruct (IH (touch F k buf)) as [H1 H2].
  destruct (touch_slots F k buf) as [H3 H4]. split; congruence.
Qed.

Lemma touch_all_other F ks k buf :
  ~ In k ks ->
  dict_get k (entries (fold_left (fun b k => touch F k b) ks buf))
  = dict_get k (entries buf).
Proof.
  revert buf. induction ks as [|k0 ks IH]; intros buf Hn; simpl.
  - reflexivity.
  - rewrite IH by (intros H; apply Hn; now right).
    apply touch_get_other. intros ->. apply Hn. now left.
Qed.

Lemma touch_all_once F ks k e buf :
  NoDup ks -> In k ks -> dict_get k (entries buf) = Some e ->
  dict_get k (entries (fold_left (fun b k => touch F k b) ks buf))
  = Some (F e).
Proof.
  revert buf. induction ks as [|k0 ks IH]; intros buf Hnd Hin He; simpl.
  - contradiction.
  - inversion Hnd as [|? ? Hnot Hnd']; subst.
    destruct (String.eqb_spec k k0) as [->|Hne].
    + rewrite touch_all_other by exact Hnot. now apply touch_get_same.
    + destruct Hin as [E|Hin]; [congruence|].
      apply IH; auto. now rewrite touch_get_other.
Qed.

(** When going through [F] twice is going through it once, a name may
    come more than once. *)
Lemma touch_all_idem F ks k e buf :
  (forall e, F (F e) = F e) ->
  In k ks -> dict_get k (entries buf) = Some e ->
  dict_get k (entries (fold_left (fun b k => touch F k b) ks buf))
  = Some (F e).
Proof.
  intros Hidem. revert e buf.
  induction ks as [|k0 ks IH]; intros e buf Hin He; simpl.
  - contradiction.
  - destruct (String.eqb_spec k k0) as [->|Hne].
    + pose proof (touch_get_same F k0 e buf He) as Hk.
      destruct (in_dec string_dec k0 ks) as [Hin'|Hout].
      * rewrite (IH (F e) _ Hin' Hk). now rewrite Hidem.
      * now rewrite touch_all_other.
    + destruct Hin as [E|Hin]; [congruence|].
      apply IH; auto. now rewrite touch_get_other.
Qed.

(** A loop over names that are keys, each body a [touch]; [P] is what
    the body needs of the objects. *)
Lemma for_each_touch (P : entry -> Prop) F
    (body : string -> M AgentBuffer unit) ks buf :
  (forall e, P e -> P (F e)) ->
  (forall k b e, dict_get k (entries b) = Some e -> P e ->
     body k b = (inr tt, touch F k b)) ->
  (forall k e, dict_get k (entries buf) = Some e -> P e) ->
  (forall k, In k ks -> In k (dict_keys (entries buf))) ->
  for_each ks body buf
  = (inr tt, fold_left (fun b k => touch F k b) ks buf).
Proof.
  intros HF Hbody HP Hks.
  apply (for_each_run body (touch F)
           (fun b =>
              (forall k e, dict_get k (entries b) = Some e -> P e) /\
              (forall k, In k ks -> In k (dict_keys (entries b))))).
  - intros k b Hk [HbP Hb].
    destruct (proj1 (dict_get_in_keys k (entries b)) (Hb k Hk)) as [e He].
    split; [eauto|]. split.
    + intros k' e' He'. destruct (String.eqb_spec k' k) as [->|Hne].
      * rewrite (touch_get_same F k e b He) in He'.
        injection He' as <-. eauto.
      * rewrite touch_get_other in He' by exact Hne. eauto.
    + intros k' Hk'. rewrite touch_keys. auto.
  - split; assumption.
Qed.

(** *** reset *)

Lemma call_reset_field k e buf :
  dict_get k (entries buf) = Some e -> is_field e ->
  call_field k reset_field buf = (inr tt, touch (entry_assign []) k buf).
Proof.
  intros He [f ->]. unfold call_field, touch.
  rewrite (bind_run _ _ _ _ _ (getitem_present _ _ _ He)), He.
  reflexivity.
Qed.

(** X19: [reset_field] leaves no item in the field and the padding value
    as it was; on a buffer whose values are all fields [reset_agent] does
    so for the field under every key, sets the two auxiliary slots to
    [None], and the keys stay. *)
Theorem reset_clears (f : AgentBufferField) buf :
  all_fields buf ->
  reset_field f = (inr tt, mkField [] (padding_value f)) /\
  exists buf',
    reset_agent buf = (inr tt, buf') /\
    dict_keys (entries buf') = dict_keys (entries buf) /\
    (forall k f0, dict_get k (entries buf) = Some (Field f0) ->
       dict_get k (entries buf')
       = Some (Field (mkField [] (padding_value f0)))) /\
    last_brain_info buf' = None /\
    last_take_action_outputs buf' = None.
Proof.
  intros Hall. split; [reflexivity|].
  set (buf1 := fold_left (fun b k => touch (entry_assign []) k b)
                 (dict_keys (entries buf)) buf).
  assert (Hloop : for_each (dict_keys (entries buf))
                    (fun k => call_field k reset_field) buf
                  = (inr tt, buf1)).
  { apply (for_each_touch is_field); auto.
    - intros e [f0 ->]. now exists (mkField [] (padding_value f0)).
    - intros k b e. apply call_reset_field. }
  exists (mkBuffer (entries buf1) None None). repeat split.
  - unfold reset_agent. rewrite (bind_run _ _ _ _ _ (keys_run buf)).
    now rewrite (bind_run _ _ _ _ _ Hloop).
  - apply touch_all_keys.
  - intros k f0 Hk. simpl. unfold buf1.
    rewrite (touch_all_idem _ _ k (Field f0)); auto.
    + now intros [f1|l].
    + apply dict_get_in_keys. eauto.
Qed.

(** *** truncate *)

Lemma num_experiences_run buf :
  exists cur, num_experiences buf = (inr cur, buf) /\ 0 <= cur.
Proof.
  unfold num_experiences, bind, get, ret.
  destruct (entries buf) as [|[k e] d].
  - exists 0. split; [reflexivity | lia].
  - exists (len (entry_items e)). split; [reflexivity | apply len_nonneg].
Qed.

Lemma truncate_body d k e buf :
  dict_get k (entries buf) = Some e ->
  (e0 <- getitem k ;;
   assign_slice k (slice (Some d) None (entry_items e0))) buf
  = (inr tt,
     touch (fun e => entry_assign (slice (Some d) None (entry_items e)) e)
       k buf).
Proof.
  intros He. rewrite (bind_run _ _ _ _ _ (getitem_present _ _ _ He)).
  rewrite (assign_slice_present _ _ _ _ He). unfold touch. now rewrite He.
Qed.

(** C8, as the code has it: [truncate] rounds [max_length] down to a
    multiple of [sequence_length]; when the number of experiences, which
    is the length of the first field, is over that bound, every field
    loses as many of its oldest items as the first field has too many,
    which leaves a field as long as the first one with its [bound] most
    recent items; otherwise the buffer stays as it is. [truncate(3, 1)]
    makes [[a,b,c,d,e]] into [[c,d,e]], which [truncate(10, 1)] keeps. *)
Theorem truncate_drops_oldest buf max_length sequence_length :
  1 <= sequence_length -> 0 <= max_length ->
  NoDup (dict_keys (entries buf)) ->
  let bound := max_length - max_length mod sequence_length in
  (exists cur buf',
     num_experiences buf = (inr cur, buf) /\
     truncate max_length sequence_length buf = (inr tt, buf') /\
     bound = sequence_length * (max_length / sequence_length) /\
     (bound < cur ->
      dict_keys (entries buf') = dict_keys (entries buf) /\
      forall k e, dict_get k (entries buf) = Some e ->
        dict_get k (entries buf')
        = Some (entry_assign
                  (skipn (Z.to_nat (cur - bound)) (entry_items e)) e) /\
        (len (entry_items e) = cur ->
         skipn (Z.to_nat (cur - bound)) (entry_items e)
         = suffix bound (entry_items e))) /\
     (cur <= bound -> buf' = buf)) /\
  (forall (a b c d e : elem) p k i o,
     truncate 3 1 (mkBuffer [(k, Field (mkField [a; b; c; d; e] p))] i o)
     = (inr tt, mkBuffer [(k, Field (mkField [c; d; e] p))] i o) /\
     truncate 10 1 (mkBuffer [(k, Field (mkField [c; d; e] p))] i o)
     = (inr tt, mkBuffer [(k, Field (mkField [c; d; e] p))] i o)).
Proof.
  intros Hs Hm Hnd bound. split.
  - destruct (num_experiences_run buf) as (cur & Hcur & Hpos).
    pose proof (Z.mod_pos_bound max_length sequence_length ltac:(lia)).
    pose proof (Z.mod_le max_length sequence_length ltac:(lia) ltac:(lia)).
    pose proof (Z.div_mod max_length sequence_length ltac:(lia)).
    unfold truncate. rewrite (bind_run _ _ _ _ _ Hcur).
    unfold pymod at 1.
    destruct (Z.eqb_spec sequence_length 0) as [?|_]; [lia|].
    rewrite (bind_run (ret (max_length mod sequence_length)) _ buf _ buf
               eq_refl).
    fold bound.
    destruct (Z.gtb_spec cur bound) as [Hgt|Hle].
    + set (F := fun e =>
                  entry_assign
                    (slice (Some (cur - bound)) None (entry_items e)) e).
      exists cur,
        (fold_left (fun b k => touch F k b) (dict_keys (entries buf)) buf).
      split; [exact Hcur|]. split; [|split; [lia|split; [|lia]]].
      * rewrite (bind_run _ _ _ _ _ (keys_run buf)).
        apply (for_each_touch (fun _ => True)); auto.
        intros k b e He _. exact (truncate_body _ k e b He).
      * intros _. split; [apply touch_all_keys|].
        intros k e He. split.
        -- rewrite (touch_all_once F _ k e); auto.
           ++ unfold F. now rewrite slice_from by lia.
           ++ apply dict_get_in_keys. eauto.
        -- intros Hlen. unfold suffix. f_equal. unfold len in Hlen. lia.
    + exists cur, buf. split; [exact Hcur|].
      split; [reflexivity|]. split; [lia|]. split; [lia | reflexivity].
  - intros a b c d e p k i o.
    set (B5 := mkBuffer [(k, Field (mkField [a; b; c; d; e] p))] i o).
    set (B3 := mkBuffer [(k, Field (mkField [c; d; e] p))] i o).
    assert (H5 : dict_get k (entries B5)
                 = Some (Field (mkField [a; b; c; d; e] p)))
      by (simpl; now rewrite String.eqb_refl).
    split; unfold truncate.
    + rewrite (bind_run num_experiences _ B5 5 B5 eq_refl).
      rewrite (bind_run (pymod 3 1) _ B5 0 B5 eq_refl).
      cbv beta zeta. change (5 >? 3 - 0) with true. cbv iota.
      rewrite (bind_run _ _ _ _ _ (keys_run B5)).
      change (dict_keys (entries B5)) with [k]. unfold for_each.
      rewrite (bind_run _ _ _ _ _ (truncate_body _ k _ B5 H5)).
      unfold touch. rewrite H5. unfold ret, store. simpl.
      now rewrite String.eqb_refl.
    + rewrite (bind_run num_experiences _ B3 3 B3 eq_refl).
      rewrite (bind_run (pymod 10 1) _ B3 0 B3 eq_refl).
      reflexivity.
Qed.

(** *** check_length, and the operations it guards *)

Lemma same_length_cons buf k ks n :
  same_length buf (k :: ks) n <->
  (exists e, dict_get k (entries buf) = Some e /\ len (entry_items e) = n) /\
  same_length buf ks n.
Proof.
  unfold same_length. split.
  - intros H. split; [apply H; now left | intros k' Hk'; apply H; now right].
  - intros [Hk Hks] k' [<-|Hin]; auto.
Qed.

Lemma check_length_loop_run ks :
  forall length buf, exists r,
    check_length_loop ks length buf = (inr r, buf) /\
    (r = true <->
     match length with
     | Some l => same_length buf ks l
     | None => ks = [] \/ exists n, same_length buf ks n
     end).
Proof.
  induction ks as [|k ks IH]; intros length buf.
  - exists true. split; [reflexivity|]. split; [|reflexivity].
    intros _. destruct length; [intros k [] | now left].
  - cbn [check_length_loop]. rewrite (bind_run _ _ _ _ _ (keys_run buf)).
    destruct (dict_get k (entries buf)) as [e|] eqn:He.
    + rewrite (dict_get_mem _ _ _ He). cbn [negb].
      pose proof (getitem_present _ _ _ He) as Hget.
      destruct length as [l|].
      * rewrite (bind_run _ _ buf (negb (l =? len (entry_items e))) buf)
          by now rewrite (bind_run _ _ _ _ _ Hget).
        destruct (Z.eqb_spec l (len (entry_items e))) as [->|Hne];
          cbn [negb].
        -- rewrite (bind_run _ _ _ _ _ Hget).
           destruct (IH (Some (len (entry_items e))) buf) as (r & Hr & Hiff).
           exists r. split; [exact Hr|]. rewrite Hiff, same_length_cons.
           split; [eauto | tauto].
        -- exists false. split; [reflexivity|].
           split; [discriminate|]. rewrite same_length_cons.
           intros [(e' & He' & Hl) _]. congruence.
      * rewrite (bind_run (ret false) _ buf false buf eq_refl).
        rewrite (bind_run _ _ _ _ _ Hget).
        destruct (IH (Some (len (entry_items e))) buf) as (r & Hr & Hiff).
        exists r. split; [exact Hr|]. rewrite Hiff. split.
        -- intros H. right. exists (len (entry_items e)).
           apply same_length_cons. eauto.
        -- intros [?|[n Hn]]; [discriminate|].
           apply same_length_cons in Hn.
           destruct Hn as [(e' & He' & Hl) Hn].
           assert (e' = e) by congruence. now subst.
    + rewrite (dict_get_not_mem _ _ He). exists false.
      split; [reflexivity|]. split; [discriminate|].
      intros H. exfalso.
      assert (Hk : exists n, same_length buf (k :: ks) n)
        by (destruct length; [eauto | destruct H; [discriminate | auto]]).
      destruct Hk as [n Hn]. apply same_length_cons in Hn.
      destruct Hn as [(e' & He' & _) _]. congruence.
Qed.

(** [check_length] is a predicate: it answers, and writes nothing. *)
Lemma check_length_run ks buf :
  exists r,
    check_length ks buf = (inr r, buf) /\
    (r = true <-> (len ks < 2 \/ exists n, same_length buf ks n)).
Proof.
  unfold check_length. destruct (Z.ltb_spec (len ks) 2) as [Hlt|Hge].
  - exists true. split; [reflexivity|]. split; auto.
  - destruct (check_length_loop_run ks None buf) as (r & Hr & Hiff).
    exists r. split; [exact Hr|]. rewrite Hiff. split.
    + intros [->|H]; [discriminate Hge || (cbn in Hge; lia) | now right].
    + intros [?|H]; [lia | now right].
Qed.

Lemma on_self_run {A : Type} (m : M AgentBuffer A) buf g r buf' :
  m buf = (r, buf') -> on_self m (buf, g) = (r, (buf', g)).
Proof. intros H. unfold on_self, zoom. simpl. now rewrite H. Qed.

Lemma at_ref_run {A : Type} (m : M AgentBuffer A) (h : heap) x r b :
  m (h x) = (r, b) ->
  at_ref x m h = (r, fun y => if Nat.eqb y x then b else h y).
Proof. intros H. unfold at_ref, zoom. now rewrite H. Qed.

Lemma avoids_setitem P k e : avoids P (setitem k e).
Proof. intros s e0 H. discriminate. Qed.

Lemma avoids_getitem P k : ~ P KeyError -> avoids P (getitem k).
Proof.
  intros Hn. unfold getitem, keys.
  avoid; apply avoids_setitem.
Qed.

Lemma avoids_assign_slice P k data :
  ~ P KeyError -> avoids P (assign_slice k data).
Proof.
  intros Hn. unfold assign_slice.
  apply avoids_bind; [now apply avoids_getitem|].
  intros. apply avoids_setitem.
Qed.

Lemma avoids_extend_item P k data :
  ~ P KeyError -> avoids P (extend_item k data).
Proof.
  intros Hn. unfold extend_item.
  apply avoids_bind; [now apply avoids_getitem|].
  intros. apply avoids_setitem.
Qed.

Lemma avoids_call_field {A : Type} P k (m : M AgentBufferField A) :
  ~ P KeyError -> ~ P AttributeError -> avoids P m ->
  avoids P (call_field k m).
Proof.
  intros Hk Ha Hm. unfold call_field.
  apply avoids_bind; [now apply avoids_getitem|].
  intros [f|l]; [|now apply avoids_raise].
  destruct (m f) as [r f'] eqn:E.
  apply avoids_bind; [apply avoids_setitem|].
  intros _ s e He. simpl in He. subst r.
  apply (Hm f). now rewrite E.
Qed.

Lemma avoids_get_batch batch_size training_length sequential :
  avoids LengthMismatch (get_batch batch_size training_length sequential).
Proof.
  unfold get_batch, max_sequences. avoid.
Qed.

Lemma avoids_np_random_shuffle P s : avoids P (np_random_shuffle s).
Proof.
  intros w e. unfold np_random_shuffle.
  destruct (random_shuffle s (snd w)). discriminate.
Qed.

#[local] Hint Resolve avoids_setitem avoids_np_random_shuffle
  avoids_get_batch : avoids.
#[local] Hint Extern 1 (avoids _ (getitem _)) => apply avoids_getitem : avoids.
#[local] Hint Extern 1 (avoids _ (assign_slice _ _)) =>
  apply avoids_assign_slice : avoids.
#[local] Hint Extern 1 (avoids _ (extend_item _ _)) =>
  apply avoids_extend_item : avoids.
#[local] Hint Extern 1 (avoids _ (call_field _ _)) =>
  apply avoids_call_field : avoids.

(** C6: [check_length] is true exactly when fewer than two names are
    given or every name is a key and the items under the names are as
    many; [shuffle] and [resequence_and_append] raise the length-mismatch
    error exactly when [check_length] is false on the names, and then
    nothing is written: the receiver and the random source, and every
    buffer of the heap, the target too, are what they were. *)
Theorem length_mismatch_atomic (h : heap) (self target_buffer : nat)
    (names : list string) :
  let buf := h self in
  exists ok,
    check_length names buf = (inr ok, buf) /\
    (ok = true <-> (len names < 2 \/ exists n, same_length buf names n)) /\
    (forall sequence_length g,
       ((exists e,
           fst (shuffle sequence_length (Some names) (buf, g)) = inl e /\
           LengthMismatch e) <-> ok = false) /\
       (ok = false ->
        snd (shuffle sequence_length (Some names) (buf, g)) = (buf, g))) /\
    (forall batch_size training_length,
       ((exists e,
           fst (resequence_and_append self target_buffer (Some names)
                  batch_size training_length h) = inl e /\
           LengthMismatch e) <-> ok = false) /\
       (ok = false ->
        forall x,
          snd (resequence_and_append self target_buffer (Some names)
                 batch_size training_length h) x = h x)).
Proof.
  intros buf. destruct (check_length_run names buf) as (ok & Hrun & Hiff).
  exists ok. split; [exact Hrun|]. split; [exact Hiff|]. split.
  - intros sequence_length g. unfold shuffle.
    rewrite (bind_run (ret names) _ (buf, g) names (buf, g) eq_refl).
    rewrite (bind_run _ _ _ _ _ (on_self_run _ _ g _ _ Hrun)).
    destruct ok; cbn [negb].
    + split; [|discriminate]. split; [|discriminate].
      intros (e & He & Hm). exfalso. revert He Hm.
      match goal with
      | |- fst (?m _) = _ -> _ => assert (Hav : avoids LengthMismatch m)
      end.
      { unfold on_self. avoid. }
      apply Hav.
    + split; [|reflexivity]. split; [reflexivity|].
      intros _. exists (BufferException ShuffleLength).
      split; [reflexivity | now left].
  - intros batch_size training_length. unfold resequence_and_append.
    rewrite (bind_run (ret names) _ h names h eq_refl).
    rewrite (bind_run _ _ _ _ _ (at_ref_run _ h self _ _ Hrun)).
    destruct ok; cbn [negb].
    + split; [|discriminate]. split; [|discriminate].
      intros (e & He & Hm). exfalso. revert He Hm.
      match goal with
      | |- fst (?m _) = _ -> _ => assert (Hav : avoids LengthMismatch m)
      end.
      { unfold at_ref. avoid. }
      apply Hav.
    + split.
      * split; [reflexivity|]. intros _.
        exists (BufferException (FieldsLength names)).
        split; [reflexivity | right; eauto].
      * intros _ x. cbn [raise snd]. fold buf.
        destruct (Nat.eqb_spec x self) as [->|_]; reflexivity.
Qed.

(** *** shuffle *)

Lemma for_each_touch_on_self F (body : string -> M (AgentBuffer * rng) unit)
    (g : rng) ks :
  (forall k b e, dict_get k (entries b) = Some e ->
     body k (b, g) = (inr tt, (touch F k b, g))) ->
  forall buf,
    (forall k, In k ks -> In k (dict_keys (entries buf))) ->
    for_each ks body (buf, g)
    = (inr tt, (fold_left (fun b k => touch F k b) ks buf, g)).
Proof.
  intros Hbody. induction ks as [|k ks IH]; intros buf Hks; simpl.
  - reflexivity.
  - destruct (proj1 (dict_get_in_keys k (entries buf))
                (Hks k (or_introl eq_refl))) as [e He].
    rewrite (bind_run _ _ _ _ _ (Hbody k buf e He)).
    apply IH. intros k' Hk'. rewrite touch_keys. apply Hks. now right.
Qed.

Lemma shuffle_body sequence_length (s : list Z) key e buf g :
  dict_get key (entries buf) = Some e ->
  (tmp <- fold_for s [] (fun tmp i =>
            e <- on_self (getitem key) ;;
            ret (tmp ++ slice (Some (i * sequence_length))
                          (Some ((i + 1) * sequence_length))
                          (entry_items e))) ;;
   on_self (assign_slice key tmp)) (buf, g)
  = (inr tt,
     (touch (fun e =>
               entry_assign
                 (flat_map (fun i =>
                    slice (Some (i * sequence_length))
                      (Some ((i + 1) * sequence_length)) (entry_items e)) s)
                 e) key buf, g)).
Proof.
  intros He.
  rewrite (bind_run _ _ _ _ _
             (fold_for_run _
                (fun tmp i =>
                   tmp ++ slice (Some (i * sequence_length))
                            (Some ((i + 1) * sequence_length))
                            (entry_items e))
                s (buf, g)
                (fun acc x _ =>
                   bind_run _ _ _ _ _
                     (on_self_run _ _ g _ _ (getitem_present _ _ _ He)))
                [])).
  rewrite fold_left_windows. cbn [app].
  rewrite (on_self_run _ _ g _ _ (assign_slice_present _ _ _ buf He)).
  unfold touch. now rewrite He.
Qed.

Lemma len_flat_map_const {B : Type} (f : B -> list elem) xs m :
  (forall x, In x xs -> len (f x) = m) -> len (flat_map f xs) = len xs * m.
Proof.
  induction xs as [|x xs IH]; intros H; cbn [flat_map]; [reflexivity|].
  rewrite len_app, (H x) by now left.
  rewrite IH by (intros y Hy; apply H; now right).
  unfold len. cbn [List.length]. lia.
Qed.

Lemma len_chunk sequence_length i l :
  0 <= i -> 0 <= sequence_length ->
  (i + 1) * sequence_length <= len l ->
  len (chunk sequence_length i l) = sequence_length.
Proof.
  intros Hi Hs Hl. unfold chunk, len in *.
  assert (0 <= i * sequence_length) by nia.
  rewrite length_firstn, length_skipn. lia.
Qed.

Lemma firstn_1_skipn {A : Type} n (l : list A) :
  firstn 1 (skipn n l)
  = match nth_error l n with
    | Some x => [x]
    | None => []
    end.
Proof.
  revert l. induction n as [|n IH]; intros [|x l]; try reflexivity.
  apply IH.
Qed.

(** With runs of one item, position [i] of the result holds the item at
    position [perm[i]]. *)
Lemma nth_error_reorder_1 perm l :
  Forall (fun j => 0 <= j < len l) perm ->
  forall i,
    nth_error (reorder 1 perm l) i
    = match nth_error perm i with
      | Some j => nth_error l (Z.to_nat j)
      | None => None
      end.
Proof.
  induction 1 as [|j perm Hj _ IH]; intros i.
  - now destruct i.
  - unfold reorder in *. simpl. unfold chunk at 1.
    rewrite Z.mul_1_r. change (Z.to_nat 1) with 1%nat.
    rewrite firstn_1_skipn.
    destruct (nth_error l (Z.to_nat j)) as [x|] eqn:E.
    + destruct i as [|i]; simpl; [now rewrite E | apply IH].
    + apply nth_error_None in E. unfold len in Hj. lia.
Qed.

Lemma entry_items_assign data e : entry_items (entry_assign data e) = data.
Proof. now destruct e. Qed.

Lemma np_random_shuffle_run s buf g :
  np_random_shuffle s (buf, g)
  = (inr (fst (random_shuffle s g)), (buf, snd (random_shuffle s g))).
Proof.
  unfold np_random_shuffle. simpl. now destruct (random_shuffle s g).
Qed.

Lemma floordiv_run {S : Type} a b (s : S) :
  b <> 0 -> floordiv a b s = (inr (a / b), s).
Proof.
  intros Hb. unfold floordiv. now destruct (Z.eqb_spec b 0).
Qed.

(** The slices [shuffle] takes are the runs of [reorder]. *)
Lemma shuffle_slices sequence_length perm c l :
  0 <= sequence_length ->
  (forall i, In i perm -> 0 <= i < c) ->
  flat_map (fun i => slice (Some (i * sequence_length))
                       (Some ((i + 1) * sequence_length)) l) perm
  = reorder sequence_length perm l.
Proof.
  intros Hs Hperm. unfold reorder. apply flat_map_agree. intros i Hi.
  apply Hperm in Hi. rewrite slice_window by nia.
  unfold chunk. do 2 f_equal. lia.
Qed.

(** C4, for names that are all different: [shuffle] draws one
    permutation of the indices of the [floor(n/s)] runs of [s] items and
    leaves, under every name, the runs of that field in the order of the
    permutation, [floor(n/s) * s] items, the rest being dropped; with
    [s = 1] the items at one position of the result come, in every named
    field, from one and the same position of the original. With no name
    given it raises [IndexError] and writes nothing. *)
Theorem shuffle_consistent buf names sequence_length n g :
  RandomStateLaws R ->
  1 <= sequence_length -> NoDup names -> same_length buf names n ->
  exists perm w',
    Permutation perm (arange (n / sequence_length)) /\
    shuffle sequence_length (Some names) (buf, g)
    = (match names with [] => inl IndexError | _ :: _ => inr tt end, w') /\
    (names = [] -> w' = (buf, g)) /\
    (forall k e, In k names -> dict_get k (entries buf) = Some e ->
       dict_get k (entries (fst w'))
       = Some (entry_assign
                 (reorder sequence_length perm (entry_items e)) e) /\
       len (reorder sequence_length perm (entry_items e))
       = n / sequence_length * sequence_length) /\
    (sequence_length = 1 ->
     forall i, 0 <= i < n ->
       exists j, 0 <= j < n /\
         forall k e, In k names -> dict_get k (entries buf) = Some e ->
           exists e',
             dict_get k (entries (fst w')) = Some e' /\
             nth_error (entry_items e') (Z.to_nat i)
             = nth_error (entry_items e) (Z.to_nat j)).
Proof.
  intros Laws Hs Hnd Hsame.
  set (c := n / sequence_length).
  set (perm := fst (random_shuffle (arange c) g)).
  set (g' := snd (random_shuffle (arange c) g)).
  assert (Hperm : Permutation perm (arange c)) by apply random_shuffle_perm.
  assert (Hin : forall i, In i perm -> 0 <= i < c).
  { intros i Hi. apply (Permutation_in _ Hperm) in Hi.
    now apply in_range in Hi. }
  assert (Hfields : exists w',
    shuffle sequence_length (Some names) (buf, g)
    = (match names with [] => inl IndexError | _ :: _ => inr tt end, w') /\
    (names = [] -> w' = (buf, g)) /\
    (forall k e, In k names -> dict_get k (entries buf) = Some e ->
       dict_get k (entries (fst w'))
       = Some (entry_assign
                 (reorder sequence_length perm (entry_items e)) e) /\
       len (reorder sequence_length perm (entry_items e))
       = c * sequence_length)).
  { destruct names as [|k0 rest] eqn:Enames.
    - exists (buf, g). split; [reflexivity|].
      split; [reflexivity | intros k e []].
    - rewrite <- Enames in *.
      destruct (check_length_run names buf) as (ok & Hrun & Hiff).
      assert (ok = true) by (apply Hiff; right; eauto). subst ok.
      destruct (Hsame k0) as (e0 & He0 & Hlen0);
        [rewrite Enames; now left|].
      set (F := fun e =>
                  entry_assign
                    (flat_map (fun i =>
                       slice (Some (i * sequence_length))
                         (Some ((i + 1) * sequence_length))
                         (entry_items e)) perm) e).
      exists (fold_left (fun b k => touch F k b) names buf, g'). split.
      + unfold shuffle.
        rewrite (bind_run (ret names) _ (buf, g) names (buf, g) eq_refl).
        rewrite (bind_run _ _ _ _ _ (on_self_run _ _ g _ _ Hrun)).
        cbn [negb]. rewrite Enames at 1.
        rewrite (bind_run (ret k0) _ (buf, g) k0 (buf, g) eq_refl).
        rewrite (bind_run _ _ _ _ _
                   (on_self_run _ _ g _ _ (getitem_present _ _ _ He0))).
        rewrite (bind_run _ _ _ _ _
                   (floordiv_run _ sequence_length (buf, g) ltac:(lia))).
        rewrite Hlen0. fold c.
        rewrite (bind_run _ _ _ _ _ (np_random_shuffle_run _ buf g)).
        fold perm g'.
        apply (for_each_touch_on_self F).
        * intros k b e He. exact (shuffle_body _ _ k e b g' He).
        * intros k Hk. apply dict_get_in_keys.
          destruct (Hsame k Hk) as (e & He & _). eauto.
      + split; [intros E; rewrite Enames in E; discriminate E|].
        intros k e Hk He. cbn [fst].
        destruct (Hsame k Hk) as (e1 & He1 & Hlen).
        assert (e1 = e) by congruence. subst e1.
        assert (Hc : 0 <= c) by (apply Z.div_pos; [|lia];
                                 rewrite <- Hlen; apply len_nonneg).
        pose proof (Z.mul_div_le n sequence_length ltac:(lia)) as Hle.
        fold c in Hle. split.
        * rewrite (touch_all_once F names k e buf Hnd Hk He). unfold F.
          now rewrite (shuffle_slices _ _ c) by (auto; lia).
        * unfold reorder.
          rewrite (len_flat_map_const _ _ sequence_length).
          -- f_equal. unfold len.
             rewrite (Permutation_length Hperm).
             pose proof (len_range 0 c Hc) as Hr. unfold len in Hr.
             unfold arange. lia.
          -- intros i Hi. apply Hin in Hi. apply len_chunk; nia. }
  destruct Hfields as (w' & Hrun & Hempty & Hfields).
  exists perm, w'. split; [exact Hperm|]. split; [exact Hrun|].
  split; [exact Hempty|]. split; [exact Hfields|].
  intros -> i Hi. assert (Hcn : c = n) by apply Z.div_1_r.
  assert (Hlen : len perm = n).
  { unfold len. rewrite (Permutation_length Hperm).
    pose proof (len_range 0 c ltac:(lia)) as Hr. unfold len in Hr.
    unfold arange. lia. }
  destruct (nth_error perm (Z.to_nat i)) as [j|] eqn:Ej.
  2:{ apply nth_error_None in Ej. unfold len in Hlen. lia. }
  exists j. split; [rewrite <- Hcn; apply Hin; eapply nth_error_In, Ej|].
  intros k e Hk He. destruct (Hfields k e Hk He) as [Hget _].
  eexists. split; [exact Hget|].
  rewrite entry_items_assign, nth_error_reorder_1, Ej; [reflexivity|].
  destruct (Hsame k Hk) as (e1 & He1 & Hl).
  assert (e1 = e) by congruence. subst e1.
  apply Forall_forall. intros x Hx. rewrite Hl, <- Hcn. now apply Hin.
Qed.

(** *** Mini-batches *)

Lemma dict_set_set {V : Type} k (v v' : V) d :
  dict_set k v (dict_set k v' d) = dict_set k v d.
Proof.
  induction d as [|[k0 v0] d IH]; simpl.
  - now rewrite String.eqb_refl.
  - destruct (String.eqb k k0) eqn:E; simpl; rewrite E; [reflexivity|].
    now rewrite IH.
Qed.

Lemma getitem_absent k buf :
  dict_get k (entries buf) = None ->
  getitem k buf = (inr (Field new_field), store k (Field new_field) buf).
Proof.
  intros H. cbv [getitem keys bind get ret].
  rewrite (dict_get_not_mem _ _ H). cbn [negb].
  rewrite setitem_run. cbn [store entries]. now rewrite dict_get_set_same.
Qed.

Lemma call_set k data buf :
  fresh_fields buf ->
  call_field k (set data) buf
  = (inr tt, store k (Field (mkField data zero)) buf).
Proof.
  intros Hfresh. unfold call_field.
  destruct (dict_get k (entries buf)) as [e|] eqn:E.
  - rewrite (bind_run _ _ _ _ _ (getitem_present _ _ _ E)).
    destruct (Hfresh k e E) as [d ->]. reflexivity.
  - rewrite (bind_run _ _ _ _ _ (getitem_absent _ _ E)).
    cbn. unfold store. cbn. now rewrite dict_set_set.
Qed.

Lemma store_fresh k data buf :
  fresh_fields buf -> fresh_fields (store k (Field (mkField data zero)) buf).
Proof.
  intros H k' e. unfold store. cbn [entries].
  destruct (String.eqb_spec k' k) as [->|Hne].
  - rewrite dict_get_set_same. intros [= <-]. eauto.
  - rewrite dict_get_set_other by exact Hne. apply H.
Qed.

(** What a loop of [store], of a value that the key decides, leaves. *)
Lemma store_all_out (v : string -> entry) ks k acc :
  ~ In k ks ->
  dict_get k (entries (fold_left (fun mb key => store key (v key) mb) ks acc))
  = dict_get k (entries acc).
Proof.
  revert acc. induction ks as [|k0 ks IH]; intros acc Hk; [reflexivity|].
  cbn [fold_left]. rewrite IH by (intros H; apply Hk; now right).
  apply dict_get_set_other. intros ->. apply Hk. now left.
Qed.

Lemma store_all_in (v : string -> entry) ks k acc :
  In k ks ->
  dict_get k (entries (fold_left (fun mb key => store key (v key) mb) ks acc))
  = Some (v k).
Proof.
  revert acc. induction ks as [|k0 ks IH]; intros acc Hin; [contradiction|].
  cbn [fold_left]. destruct (in_dec string_dec k ks) as [Hk|Hk].
  - now apply IH.
  - destruct Hin as [->|Hin]; [|contradiction].
    rewrite store_all_out by exact Hk. apply dict_get_set_same.
Qed.

Lemma fold_for_inv {S A B : Type} (body : B -> A -> M S B) (f : B -> A -> B)
    (Inv : B -> Prop) xs s :
  (forall acc x, In x xs -> Inv acc ->
     body acc x s = (inr (f acc x), s) /\ Inv (f acc x)) ->
  forall acc, Inv acc ->
    fold_for xs acc body s = (inr (fold_left f xs acc), s).
Proof.
  induction xs as [|x xs IH]; intros Hbody acc Hacc; [reflexivity|].
  destruct (Hbody acc x (or_introl eq_refl) Hacc) as [Hrun Hinv].
  cbn [fold_for fold_left]. rewrite (bind_run _ _ _ _ _ Hrun).
  apply IH; [|exact Hinv]. intros acc' y Hy. apply Hbody. now right.
Qed.

Lemma sample_body sequence_length start_idxes key e mini_batch buf g :
  dict_get key (entries buf) = Some e -> fresh_fields mini_batch ->
  (mb_list <- comprehension start_idxes (fun i =>
                e <- on_self (getitem key) ;;
                ret (slice (Some i) (Some (i + sequence_length))
                       (entry_items e))) ;;
   r <- local (call_field key (set (List.concat mb_list))) mini_batch ;;
   ret (snd r)) (buf, g)
  = (inr (store key (sampled sequence_length start_idxes buf key)
            mini_batch), (buf, g)).
Proof.
  intros He Hfresh.
  rewrite (bind_run _ _ _ _ _
             (comprehension_run _
                (fun i => slice (Some i) (Some (i + sequence_length))
                            (entry_items e))
                start_idxes (buf, g)
                (fun x _ =>
                   bind_run _ _ _ _ _
                     (on_self_run _ _ g _ _ (getitem_present _ _ _ He))))).
  unfold local at 1. rewrite (call_set _ _ _ Hfresh).
  unfold bind, ret, sampled. cbn [snd]. now rewrite He.
Qed.

(** [sample_mini_batch], once the draw is known. *)
Lemma sample_mini_batch_run batch_size sequence_length buf g cur draws g' :
  sequence_length <> 0 ->
  num_experiences buf = (inr cur, buf) ->
  random_randint (cur / sequence_length) (batch_size / sequence_length) g
  = (inr draws, g') ->
  let start_idxes := map (fun i => i * sequence_length) draws in
  exists mb,
    sample_mini_batch batch_size sequence_length (buf, g)
    = (inr mb, (buf, g')) /\
    (forall k e, dict_get k (entries buf) = Some e ->
       dict_get k (entries mb)
       = Some (Field (mkField
                        (flat_map (fun i =>
                           slice (Some i) (Some (i + sequence_length))
                             (entry_items e)) start_idxes)
                        zero))) /\
    (forall k, dict_get k (entries buf) = None ->
       dict_get k (entries mb) = None).
Proof.
  intros Hs Hcur Hdraw start_idxes.
  set (step := fun mb key =>
                 store key (sampled sequence_length start_idxes buf key) mb).
  exists (fold_left step (dict_keys (entries buf)) new_buffer). split.
  - unfold sample_mini_batch.
    rewrite (bind_run _ _ _ _ _ (floordiv_run _ _ (buf, g) Hs)).
    rewrite (bind_run _ _ _ _ _ (on_self_run _ _ g _ _ Hcur)).
    rewrite (bind_run _ _ _ _ _ (floordiv_run _ _ (buf, g) Hs)).
    rewrite (bind_run _ _ (buf, g) draws (buf, g'))
      by (unfold np_random_randint; cbn [snd fst]; now rewrite Hdraw).
    rewrite (bind_run _ _ _ _ _ (on_self_run _ _ g' _ _ (keys_run buf))).
    apply (fold_for_inv _ step fresh_fields).
    + intros acc key Hkey Hacc.
      apply dict_get_in_keys in Hkey. destruct Hkey as [e He].
      split; [now apply (sample_body _ _ _ e) | now apply store_fresh].
    + intros k e. discriminate.
  - split.
    + intros k e He. unfold step.
      rewrite (store_all_in (sampled sequence_length start_idxes buf))
        by (apply dict_get_in_keys; eauto).
      unfold sampled. rewrite He. now rewrite flat_map_concat_map.
    + intros k Hk. unfold step. rewrite store_all_out; [reflexivity|].
      intros Hin. apply dict_get_in_keys in Hin. destruct Hin. congruence.
Qed.



(** [make_mini_batch] stores the slices themselves. *)
Lemma make_mini_batch_run start stop buf :
  exists mb,
    make_mini_batch start stop buf = (inr mb, buf) /\
    (forall k e, dict_get k (entries buf) = Some e ->
       dict_get k (entries mb)
       = Some (PyList (slice (Some start) (Some stop) (entry_items e)))) /\
    (forall k, dict_get k (entries buf) = None ->
       dict_get k (entries mb) = None).
Proof.
  set (v := fun key =>
              PyList (slice (Some start) (Some stop)
                        (match dict_get key (entries buf) with
                         | Some e => entry_items e
                         | None => []
                         end))).
  set (step := fun mb key => store key (v key) mb).
  exists (fold_left step (dict_keys (entries buf)) new_buffer). split.
  - unfold make_mini_batch. rewrite (bind_run _ _ _ _ _ (keys_run buf)).
    apply (fold_for_inv _ step (fun _ => True)); [|exact I].
    intros acc key Hkey _. split; [|exact I].
    apply dict_get_in_keys in Hkey. destruct Hkey as [e He].
    rewrite (bind_run _ _ _ _ _ (getitem_present _ _ _ He)).
    unfold step, v. now rewrite He.
  - split.
    + intros k e He. unfold step.
      rewrite (store_all_in v) by (apply dict_get_in_keys; eauto).
      unfold v. now rewrite He.
    + intros k Hk. unfold step. rewrite store_all_out; [reflexivity|].
      intros Hin. apply dict_get_in_keys in Hin. destruct Hin. congruence.
Qed.

(** X20: what [sample_mini_batch] returns holds fields of its own. Under
    every key of the source there is a field whose padding value is that
    of a new field, 0, whatever the padding value of the source's field;
    the result has no other value, and the source is left as it was. *)
Theorem sample_mini_batch_new_fields buf batch_size sequence_length n g :
  RandomStateLaws R ->
  1 <= sequence_length -> sequence_length <= n -> 0 <= batch_size ->
  num_experiences buf = (inr n, buf) ->
  exists mb g',
    sample_mini_batch batch_size sequence_length (buf, g)
    = (inr mb, (buf, g')) /\
    (forall k e, dict_get k (entries buf) = Some e ->
       exists f,
         dict_get k (entries mb) = Some (Field f) /\
         padding_value f = zero) /\
    (forall k e', dict_get k (entries mb) = Some e' ->
       exists f, e' = Field f /\ padding_value f = zero).
Proof.
  intros Laws Hs Hn Hb Hcur.
  assert (Hq : 0 < n / sequence_length) by (apply Z.div_str_pos; lia).
  assert (Hsz : 0 <= batch_size / sequence_length)
    by (apply Z.div_pos; lia).
  destruct (random_randint_range (n / sequence_length)
              (batch_size / sequence_length) g Hq Hsz)
    as (draws & Hdraw & _).
  destruct (random_randint (n / sequence_length)
              (batch_size / sequence_length) g) as [r g'] eqn:Erand.
  cbn [fst] in Hdraw. subst r.
  destruct (sample_mini_batch_run batch_size sequence_length buf g n
              draws g' ltac:(lia) Hcur Erand) as (mb & Hrun & Hin & Hout).
  exists mb, g'. split; [exact Hrun|]. split.
  - intros k e He. eexists. split; [apply (Hin k e He) | reflexivity].
  - intros k e' He'. destruct (dict_get k (entries buf)) as [e|] eqn:E.
    + rewrite (Hin k e E) in He'. injection He' as <-.
      eexists. split; reflexivity.
    + rewrite (Hout k E) in He'. discriminate.
Qed.

(** *** resequence_and_append *)

Lemma call_field_single {A : Type} k (m : M AgentBufferField A) f i o :
  call_field k m (mkBuffer [(k, Field f)] i o)
  = (fst (m f), mkBuffer [(k, Field (snd (m f)))] i o).
Proof.
  assert (He : dict_get k (entries (mkBuffer [(k, Field f)] i o))
               = Some (Field f))
    by (simpl; now rewrite String.eqb_refl).
  unfold call_field. rewrite (bind_run _ _ _ _ _ (getitem_present _ _ _ He)).
  destruct (m f) as [r f']. rewrite (bind_run _ _ _ _ _ (setitem_run _ _ _)).
  unfold store. simpl. now rewrite String.eqb_refl.
Qed.

Lemma extend_item_new k data i o :
  extend_item k data (mkBuffer [(k, Field new_field)] i o)
  = (inr tt, mkBuffer [(k, Field (mkField data zero))] i o).
Proof.
  assert (He : dict_get k (entries (mkBuffer [(k, Field new_field)] i o))
               = Some (Field new_field))
    by (simpl; now rewrite String.eqb_refl).
  unfold extend_item.
  rewrite (bind_run _ _ _ _ _ (getitem_present _ _ _ He)).
  rewrite setitem_run. unfold store. simpl. now rewrite String.eqb_refl.
Qed.

(** One field into an empty target: the field of the target is created
    before [get_batch] is called, and gets what [get_batch] returns. *)
Lemma resequence_single (h : heap) self target_buffer k f i o i' o'
    batch_size training_length :
  self <> target_buffer ->
  h self = mkBuffer [(k, Field f)] i o ->
  h target_buffer = mkBuffer [] i' o' ->
  exists h',
    resequence_and_append self target_buffer (Some [k])
      batch_size training_length h
    = (match fst (get_batch batch_size training_length true f) with
       | inl e => inl e
       | inr _ => inr tt
       end, h') /\
    h' self = h self /\
    h' target_buffer
    = mkBuffer
        [(k, Field (mkField
                      match fst (get_batch batch_size training_length
                                   true f) with
                      | inl _ => []
                      | inr batch => batch
                      end zero))] i' o'.
Proof.
  intros Hne Hself Htarget.
  assert (Hst : Nat.eqb self target_buffer = false)
    by now apply Nat.eqb_neq.
  assert (Hts : Nat.eqb target_buffer self = false)
    by (apply Nat.eqb_neq; congruence).
  unfold resequence_and_append.
  rewrite (bind_run (ret [k]) _ h [k] h eq_refl).
  rewrite (bind_run _ _ _ _ _
             (at_ref_run (check_length [k]) h self (inr true) (h self)
                eq_refl)).
  cbn [negb for_each].
  set (h1 := fun y => if Nat.eqb y self then h self else h y).
  assert (H1 : getitem k (h1 target_buffer)
               = (inr (Field new_field),
                  mkBuffer [(k, Field new_field)] i' o')).
  { unfold h1. rewrite Hts, Htarget. now rewrite getitem_absent. }
  set (h2 := fun y => if Nat.eqb y target_buffer
                      then mkBuffer [(k, Field new_field)] i' o'
                      else h1 y).
  assert (H2 : call_field k (get_batch batch_size training_length true)
                 (h2 self)
               = (fst (get_batch batch_size training_length true f),
                  mkBuffer [(k, Field f)] i o)).
  { unfold h2, h1. rewrite Hst, Nat.eqb_refl, Hself.
    now rewrite call_field_single, get_batch_frame. }
  pose proof (at_ref_run _ h2 self _ _ H2) as H2'.
  set (h3 := fun y => if Nat.eqb y self
                      then mkBuffer [(k, Field f)] i o else h2 y) in *.
  assert (Hs3 : h3 self = h self)
    by (unfold h3; now rewrite Nat.eqb_refl).
  assert (Ht3 : h3 target_buffer = mkBuffer [(k, Field new_field)] i' o')
    by (unfold h3, h2; now rewrite Hts, Nat.eqb_refl).
  destruct (fst (get_batch batch_size training_length true f))
    as [e|batch].
  - exists h3. split; [|now split].
    apply bind_raise.
    rewrite (bind_run _ _ _ _ _ (at_ref_run _ h1 target_buffer _ _ H1)).
    now apply bind_raise.
  - set (h4 := fun y => if Nat.eqb y target_buffer
                        then mkBuffer [(k, Field (mkField batch zero))] i' o'
                        else h3 y).
    assert (H3 : extend_item k batch (h3 target_buffer)
                 = (inr tt,
                    mkBuffer [(k, Field (mkField batch zero))] i' o'))
      by (rewrite Ht3; apply extend_item_new).
    exists h4. split; [|split].
    + apply bind_ret.
      rewrite (bind_run _ _ _ _ _ (at_ref_run _ h1 target_buffer _ _ H1)).
      rewrite (bind_run _ _ _ _ _ H2').
      apply (at_ref_run _ h3 target_buffer _ _ H3).
    + unfold h4. now rewrite Hst.
    + unfold h4. now rewrite Nat.eqb_refl.
Qed.

(** C5, as the code has it: with [batch_size = 4] and
    [training_length = 2], a source field of two items is over the bound
    of one sequence, so [resequence_and_append] raises the out-of-range
    error, and the field it created in the empty target stays empty.
    With [training_length = 4], and [batch_size] 1 or left out, it
    succeeds, and the field of the target is two copies of the last item
    scaled by the source's padding value, then the two items in order. *)
Theorem resequence_two_items (h : heap) self target_buffer k
    (x y : elem) p i o i' o' :
  self <> target_buffer ->
  h self = mkBuffer [(k, Field (mkField [x; y] p))] i o ->
  h target_buffer = mkBuffer [] i' o' ->
  (exists e h',
     resequence_and_append self target_buffer (Some [k])
       (Some 4) (Some 2) h = (inl e, h') /\
     OutOfRangeBatch e /\
     h' self = h self /\
     h' target_buffer = mkBuffer [(k, Field new_field)] i' o') /\
  (forall batch_size, batch_size = Some 1 \/ batch_size = None ->
     exists h',
       resequence_and_append self target_buffer (Some [k])
         batch_size (Some 4) h = (inr tt, h') /\
       h' self = h self /\
       h' target_buffer
       = mkBuffer
           [(k, Field (mkField [scale y p; scale y p; x; y] zero))] i' o').
Proof.
  intros Hne Hself Htarget. split.
  - destruct (resequence_single h self target_buffer k _ i o i' o'
                (Some 4) (Some 2) Hne Hself Htarget) as (h' & Hrun & Hs & Ht).
    exists (BufferException BatchTooLarge), h'.
    split; [exact Hrun|]. split; [reflexivity|]. now split.
  - intros batch_size Hb.
    destruct (resequence_single h self target_buffer k _ i o i' o'
                batch_size (Some 4) Hne Hself Htarget)
      as (h' & Hrun & Hs & Ht).
    exists h'. destruct Hb as [-> | ->]; now repeat split.
Qed.

End BufferFacts.

(** * The rest of the buffer *)

(** ** The static methods *)

Section ZipFacts.
Context {A : Type}.

Lemma nth_error_combine {B : Type} (l : list A) (l' : list B) j p :
  nth_error (combine l l') j = Some p <->
  nth_error l j = Some (fst p) /\ nth_error l' j = Some (snd p).
Proof.
  revert l' j. induction l as [|x l IH]; intros [|y l'] [|j]; simpl;
    try (split; [discriminate | intros [H1 H2]; discriminate]).
  - destruct p as [a b]. simpl. split.
    + intros [= <- <-]. now split.
    + intros [[= <-] [= <-]]. reflexivity.
  - apply IH.
Qed.

(** Tuple [j] of [zip_star] holds item [j] of every list, in the order
    of the lists, and is there exactly when every list has an item [j]. *)
Lemma nth_error_zip_star (ls : list (list A)) j col :
  nth_error (zip_star ls) j = Some col <->
  ls <> [] /\ Forall2 (fun l x => nth_error l j = Some x) ls col.
Proof.
  revert col. induction ls as [|l rest IH]; intros col.
  - simpl. split; [now destruct j | intros [H _]; now elim H].
  - cbn [zip_star]. destruct rest as [|l2 rest].
    + rewrite nth_error_map. split.
      * destruct (nth_error l j) as [x|] eqn:E; [|discriminate].
        intros [= <-]. split; [discriminate|].
        constructor; [exact E | constructor].
      * intros [_ H]. inversion H as [|? x ? col' Hx Hrest]; subst.
        inversion Hrest; subst. now rewrite Hx.
    + rewrite nth_error_map. split.
      * destruct (nth_error (combine l (zip_star (l2 :: rest))) j)
          as [[x col']|] eqn:E; [|discriminate].
        intros [= <-]. apply nth_error_combine in E. destruct E as [Hx Hc].
        apply IH in Hc. split; [discriminate|].
        constructor; [exact Hx | apply Hc].
      * intros [_ H]. inversion H as [|? x ? col' Hx Hrest]; subst.
        assert (Hc : nth_error (zip_star (l2 :: rest)) j = Some col')
          by (apply IH; split; [discriminate | exact Hrest]).
        assert (E : nth_error (combine l (zip_star (l2 :: rest))) j
                    = Some (x, col'))
          by (apply nth_error_combine; now split).
        now rewrite E.
Qed.


End ZipFacts.

Section StaticFacts.
Context {N : Numpy} {K : Stacking}.


(** X2: in [obs_list_list_to_obs_batch], position [i] of the result has
    as its channel [j] the stacking, over the outer list in order, of
    observation [j] of list [i]. *)
Theorem obs_list_list_to_obs_batch_transposes
    (obs_list_list : list (list (list elem))) i j row col :
  obs_list_list <> [] ->
  Forall2 (fun obs_list obs => nth_error obs_list i = Some obs)
    obs_list_list row ->
  Forall2 (fun obs x => nth_error obs j = Some x) row col ->
  exists channels,
    nth_error (obs_list_list_to_obs_batch obs_list_list) i = Some channels /\
    nth_error channels j = Some (asanyarray col).
Proof.
  intros Hne Hrow Hcol. unfold obs_list_list_to_obs_batch.
  assert (H : nth_error (zip_star obs_list_list) i = Some row)
    by (apply nth_error_zip_star; now split).
  exists (obs_list_to_obs_batch row). rewrite nth_error_map, H.
  split; [reflexivity|].
  assert (Hrow_ne : row <> [])
    by (intros ->; inversion Hrow; subst; now elim Hne).
  assert (H' : nth_error (zip_star row) j = Some col)
    by (apply nth_error_zip_star; now split).
  unfold obs_list_to_obs_batch. now rewrite nth_error_map, H'.
Qed.

End StaticFacts.


(** ** More of get_batch *)

Section FieldMore.
Context {N : Numpy}.
Implicit Types self : AgentBufferField.

(** The three ways out of the sequential branch. *)
Lemma get_batch_sequential_run self b t :
  t <> 0 ->
  let n := len (items self) in
  let bound := n / t + 1 * Z.b2z (negb (n mod t =? 0)) in
  let bs := match b with None => bound | Some b => b end in
  get_batch b (Some t) true self
  = if bs >? bound then (inl (BufferException BatchTooLarge), self)
    else if bs * t >? n then
      match rev (items self) with
      | [] => (inl IndexError, self)
      | last :: _ =>
          (inr (replicate (scale last (padding_value self)) (t - n mod t)
                  ++ items self), self)
      end
    else (inr (slice (Some (n - bs * t)) None (items self)), self).
Proof.
  intros Ht. cbv zeta.
  cbv [get_batch bind get ret raise pymod floordiv max_sequences last_item].
  destruct (Z.eqb_spec t 0) as [?|_]; [contradiction|].
  destruct b as [b|]; cbv beta iota;
    repeat match goal with
           | |- context [if ?c then _ else _] =>
               lazymatch type of c with bool => destruct c end
           | |- context [match rev ?l with _ => _ end] => destruct (rev l)
           end;
    reflexivity.
Qed.

Lemma sequential_bound n t :
  1 <= t -> 0 <= n ->
  let bound := n / t + 1 * Z.b2z (negb (n mod t =? 0)) in
  0 <= bound /\
  (n mod t = 0 -> bound * t = n) /\
  (n mod t <> 0 -> bound * t = n + (t - n mod t)) /\
  n <= bound * t.
Proof.
  intros Ht Hn bound.
  pose proof (Z.div_mod n t ltac:(lia)) as Hdm.
  pose proof (Z.mod_pos_bound n t ltac:(lia)) as Hr.
  assert (0 <= n / t) by (apply Z.div_pos; lia).
  unfold bound. destruct (Z.eqb_spec (n mod t) 0) as [E|E];
    cbn [negb Z.b2z]; repeat split; try lia; nia.
Qed.

(** X3: with [sequential] true and a batch size [b >= 0] that the items
    can fill, [b * training_length <= n], the result is the
    [b * training_length] most recent items, and nothing is padded. *)
Theorem get_batch_sequential_suffix self b t :
  let n := len (items self) in
  1 <= t -> 0 <= b -> b * t <= n ->
  get_batch (Some b) (Some t) true self
  = (inr (skipn (Z.to_nat (n - b * t)) (items self)), self) /\
  len (skipn (Z.to_nat (n - b * t)) (items self)) = b * t.
Proof.
  intros n Ht Hb Hfit.
  destruct (sequential_bound n t Ht (len_nonneg _)) as (_ & _ & _ & Hle).
  rewrite get_batch_sequential_run by lia. fold n.
  set (bound := n / t + 1 * Z.b2z (negb (n mod t =? 0))) in *.
  assert (Hbb : b <= bound).
  { pose proof (Z.div_le_lower_bound n t b ltac:(lia) ltac:(lia)).
    unfold bound. destruct (negb (n mod t =? 0)); cbn [Z.b2z]; lia. }
  destruct (Z.gtb_spec b bound) as [?|_]; [lia|].
  destruct (Z.gtb_spec (b * t) n) as [?|_]; [lia|].
  rewrite slice_from by lia. split; [reflexivity|].
  unfold len, n, len in *. rewrite length_skipn. nia.
Qed.

(** X4: for a training length of at least 1, the sequential [get_batch]
    either raises the out-of-range error, and only for a given batch size
    over the maximum, or returns a whole number of sequences; it never
    reads the last item of an empty field. *)
Theorem get_batch_whole_sequences self b t :
  1 <= t ->
  match fst (get_batch b (Some t) true self) with
  | inr batch => exists q, 0 <= q /\ len batch = q * t
  | inl e =>
      OutOfRangeBatch e /\
      exists b0, b = Some b0 /\
        b0 > max_batch_size (len (items self)) t true
  end.
Proof.
  intros Ht. set (n := len (items self)).
  destruct (sequential_bound n t Ht (len_nonneg _))
    as (Hb0 & Hexact & Hpart & Hle).
  pose proof (Z.mod_pos_bound n t ltac:(lia)) as Hr.
  rewrite get_batch_sequential_run by lia. fold n. unfold max_batch_size.
  replace (n / t + (if n mod t =? 0 then 0 else 1))
    with (n / t + 1 * Z.b2z (negb (n mod t =? 0)))
    by (destruct (n mod t =? 0); reflexivity).
  set (bound := n / t + 1 * Z.b2z (negb (n mod t =? 0))) in *.
  set (bs := match b with None => bound | Some b0 => b0 end).
  destruct (Z.gtb_spec bs bound) as [Hgt|Hle'].
  - cbn [fst]. split; [reflexivity|].
    destruct b as [b0|]; [|unfold bs in Hgt; lia].
    exists b0. split; [reflexivity | unfold bs in Hgt; lia].
  - destruct (Z.gtb_spec (bs * t) n) as [Hpad|Hfit].
    + assert (Hne : n mod t <> 0) by (intros E; specialize (Hexact E); nia).
      destruct (rev (items self)) as [|last rest] eqn:Erev.
      * exfalso. apply (f_equal (@List.length _)) in Erev.
        rewrite length_rev in Erev. unfold n, len in *.
        rewrite Erev in *. cbn in Hne. now apply Hne.
      * cbn [fst]. exists bound. split; [lia|].
        rewrite len_app, len_replicate by lia. fold n.
        rewrite (Hpart Hne). lia.
    + cbn [fst]. destruct (Z.le_gt_cases 0 bs) as [Hpos|Hneg].
      * exists bs. split; [lia|]. rewrite slice_from by lia.
        unfold len, n, len in *. rewrite length_skipn. nia.
      * exists 0. split; [lia|]. rewrite slice_from by nia.
        unfold len, n, len in *. rewrite length_skipn. nia.
Qed.

(** X5: with [sequential] false, a batch size [b] with
    [0 <= b <= n - t + 1] gives [b * t] items; with the batch size left
    out, [get_batch] returns all [n - t + 1] windows, [(n - t + 1) * t]
    items, and no item when the field is shorter than one window. *)
Theorem get_batch_overlapping_length self t :
  let n := len (items self) in
  0 <= t ->
  (forall b, 0 <= b <= n - t + 1 ->
     exists batch,
       get_batch (Some b) (Some t) false self = (inr batch, self) /\
       len batch = b * t) /\
  (exists batch,
     get_batch None (Some t) false self = (inr batch, self) /\
     len batch = Z.max 0 (n - t + 1) * t).
Proof.
  intros n Ht.
  assert (Hwin : forall b, b <= n - t + 1 ->
            len (flat_map
                   (fun stop => slice (Some (stop - t)) (Some stop)
                                  (items self))
                   (range (n - b + 1) (n + 1)))
            = Z.max 0 b * t).
  { intros b Hb. rewrite (len_flat_map_const _ _ t).
    - f_equal. unfold len, range. rewrite length_map, length_seq. lia.
    - intros stop Hstop. apply in_range in Hstop.
      rewrite slice_window by lia. unfold len, n, len in *.
      rewrite length_firstn, length_skipn. lia. }
  split.
  - intros b Hb. eexists. split.
    + cbv [get_batch bind get ret raise]. fold n.
      destruct (Z.ltb_spec (n - t + 1) b) as [?|_]; [lia|].
      rewrite fold_left_windows. reflexivity.
    + cbn [app]. rewrite Hwin by lia. lia.
  - eexists. split.
    + cbv [get_batch bind get ret raise]. fold n.
      rewrite Z.ltb_irrefl. rewrite fold_left_windows. reflexivity.
    + cbn [app]. now rewrite Hwin by lia.
Qed.

(** X6: after [reset_field], [get_batch] answers as on a new field,
    whatever it is asked, while the padding value is the one the field
    had. *)
Theorem reset_field_as_new self b t sequential :
  fst (get_batch b t sequential (snd (reset_field self)))
  = fst (get_batch b t sequential new_field) /\
  padding_value (snd (reset_field self)) = padding_value self /\
  items (snd (reset_field self)) = [].
Proof.
  split; [|now split]. cbn [reset_field assign_items bind get put snd].
  destruct t as [t|]; [|reflexivity]. destruct sequential.
  - destruct (Z.eq_dec t 0) as [->|Ht].
    + reflexivity.
    + rewrite !get_batch_sequential_run by exact Ht.
      unfold new_field. cbn [items rev].
      repeat match goal with |- context [if ?c then _ else _] =>
        destruct c end; reflexivity.
  - cbv [get_batch bind get ret raise new_field]. cbn [items].
    destruct (_ <? _); reflexivity.
Qed.

(** X7: the padding of a sequential batch comes from the last [append]:
    after [append(x, p)] the batch with the batch size left out is the
    items with [x] last, with copies of [x] scaled by [p] before them when
    a sequence is left to fill. *)
Theorem append_sets_the_padding self x p t :
  let n := len (items self) + 1 in
  1 <= t ->
  (append x p ;; get_batch None (Some t) true) self
  = (inr (replicate (scale x p) (if n mod t =? 0 then 0 else t - n mod t)
            ++ items self ++ [x]),
     mkField (items self ++ [x]) p).
Proof.
  intros n Ht.
  assert (Hn : len (items self ++ [x]) = n)
    by (rewrite len_app; reflexivity).
  rewrite (bind_run (append x p) _ self tt (mkField (items self ++ [x]) p))
    by reflexivity.
  set (self' := mkField (items self ++ [x]) p).
  assert (Hn' : len (items self') = n) by exact Hn.
  destruct (sequential_bound n t Ht ltac:(pose proof (len_nonneg (items self)); lia))
    as (Hb0 & Hexact & Hpart & Hle).
  rewrite get_batch_sequential_run by lia. rewrite Hn'.
  set (bound := n / t + 1 * Z.b2z (negb (n mod t =? 0))) in *.
  destruct (Z.gtb_spec bound bound) as [?|_]; [lia|].
  destruct (Z.eqb_spec (n mod t) 0) as [E|E].
  - rewrite (Hexact E). destruct (Z.gtb_spec n n) as [?|_]; [lia|].
    replace (n - n) with 0 by lia. now rewrite slice_from by lia.
  - rewrite (Hpart E).
    pose proof (Z.mod_pos_bound n t ltac:(lia)).
    destruct (Z.gtb_spec (n + (t - n mod t)) n) as [_|?]; [|lia].
    unfold self'. cbn [items padding_value]. now rewrite rev_app_distr.
Qed.

End FieldMore.


(** ** More of the buffer *)

Section BufferMore.
Context {N : Numpy} {R : RandomState} {L : Rollout}.
Implicit Types buf : AgentBuffer.

Lemma dict_keys_set_new {V : Type} k (v : V) d :
  dict_get k d = None -> dict_keys (dict_set k v d) = dict_keys d ++ [k].
Proof.
  induction d as [|[k0 v0] d IH]; simpl; [reflexivity|].
  destruct (String.eqb k k0); [discriminate|].
  intros H. simpl. f_equal. exact (IH H).
Qed.

Lemma dict_set_same {V : Type} k (v : V) d :
  dict_get k d = Some v -> dict_set k v d = d.
Proof.
  induction d as [|[k0 v0] d IH]; simpl; [discriminate|].
  destruct (String.eqb_spec k k0) as [->|Hne].
  - now intros [= ->].
  - intros H. f_equal. exact (IH H).
Qed.

Lemma store_same k e buf :
  dict_get k (entries buf) = Some e -> store k e buf = buf.
Proof.
  intros H. unfold store. rewrite (dict_set_same _ _ _ H). now destruct buf.
Qed.

Lemma first_entry_get k e rest buf :
  entries buf = (k, e) :: rest -> dict_get k (entries buf) = Some e.
Proof. intros ->. simpl. now rewrite String.eqb_refl. Qed.

(** X8: [self[key]] never raises. A key that is there is read and the
    buffer stays as it is; a key that is not gets a new, empty field,
    last in the order of the keys, which is what is read, and reading
    again gives the same; no other key is touched. *)
Theorem getitem_creates_once k buf :
  exists e buf',
    getitem k buf = (inr e, buf') /\
    dict_get k (entries buf') = Some e /\
    getitem k buf' = (inr e, buf') /\
    (forall k', k' <> k ->
       dict_get k' (entries buf') = dict_get k' (entries buf)) /\
    (forall e0, dict_get k (entries buf) = Some e0 -> e = e0 /\ buf' = buf) /\
    (dict_get k (entries buf) = None ->
     e = Field new_field /\
     dict_keys (entries buf') = dict_keys (entries buf) ++ [k]).
Proof.
  destruct (dict_get k (entries buf)) as [e0|] eqn:E.
  - exists e0, buf. rewrite (getitem_present _ _ _ E).
    repeat split; auto; try discriminate; congruence.
  - exists (Field new_field), (store k (Field new_field) buf).
    assert (H : dict_get k (entries (store k (Field new_field) buf))
                = Some (Field new_field)) by apply dict_get_set_same.
    rewrite (getitem_absent _ _ E), (getitem_present _ _ _ H).
    repeat split; auto; try discriminate.
    + intros k' Hne. now apply dict_get_set_other.
    + now apply dict_keys_set_new.
Qed.

(** *** truncate *)

Lemma truncate_run buf max_length sequence_length :
  1 <= sequence_length ->
  let bound := max_length - max_length mod sequence_length in
  exists cur,
    num_experiences buf = (inr cur, buf) /\ 0 <= cur /\
    truncate max_length sequence_length buf
    = (inr tt,
       if cur >? bound
       then fold_left
              (fun b k =>
                 touch (fun e =>
                          entry_assign
                            (slice (Some (cur - bound)) None (entry_items e))
                            e) k b)
              (dict_keys (entries buf)) buf
       else buf).
Proof.
  intros Hs bound.
  destruct (num_experiences_run buf) as (cur & Hcur & Hpos).
  exists cur. split; [exact Hcur|]. split; [exact Hpos|].
  unfold truncate. rewrite (bind_run _ _ _ _ _ Hcur). unfold pymod at 1.
  destruct (Z.eqb_spec sequence_length 0) as [?|_]; [lia|].
  rewrite (bind_run (ret (max_length mod sequence_length)) _ buf _ buf
             eq_refl).
  fold bound. destruct (cur >? bound); [|reflexivity].
  rewrite (bind_run _ _ _ _ _ (keys_run buf)).
  apply (for_each_touch (fun _ => True)); auto.
  intros k b e He _. exact (truncate_body _ k e b He).
Qed.

(** The number of experiences after every field went through [F], which
    is what [F] makes of a field as long as the first. *)
Lemma num_experiences_touch F buf cur c :
  NoDup (dict_keys (entries buf)) ->
  num_experiences buf = (inr cur, buf) ->
  0 < cur ->
  (forall e, len (entry_items e) = cur -> len (entry_items (F e)) = c) ->
  let buf' := fold_left (fun b k => touch F k b) (dict_keys (entries buf)) buf
  in num_experiences buf' = (inr c, buf').
Proof.
  intros Hnd Hcur Hpos HF buf'.
  pose proof (touch_all_keys F (dict_keys (entries buf)) buf) as Hk.
  fold buf' in Hk.
  destruct (entries buf) as [|[k0 e0] rest] eqn:Eb.
  - unfold num_experiences, bind, get, ret in Hcur. rewrite Eb in Hcur.
    injection Hcur as <-. lia.
  - assert (Hlen : len (entry_items e0) = cur).
    { unfold num_experiences, bind, get, ret in Hcur. rewrite Eb in Hcur.
      now injection Hcur. }
    destruct (entries buf') as [|[k1 e1] rest'] eqn:Eb'; [discriminate|].
    injection Hk as -> _.
    pose proof (first_entry_get _ _ _ _ Eb') as H1.
    pose proof (first_entry_get _ _ _ _ Eb) as H0.
    assert (Hin : In k0 (dict_keys (entries buf)))
      by (rewrite Eb; now left).
    rewrite <- Eb in Hnd.
    pose proof (touch_all_once F _ k0 e0 buf Hnd Hin H0) as H2.
    unfold buf' in H1. rewrite <- Eb in H1. rewrite H2 in H1.
    injection H1 as <-.
    unfold num_experiences, bind, get, ret. rewrite Eb'.
    now rewrite (HF e0 Hlen).
Qed.

(** X9: after [truncate(max_length, sequence_length)], with
    [max_length >= 0], the number of experiences is the smaller of what
    it was and [max_length] rounded down to a multiple of
    [sequence_length], so at most [max_length]; and truncating again with
    the same arguments changes nothing. *)
Theorem truncate_bounds_the_buffer buf max_length sequence_length :
  1 <= sequence_length -> 0 <= max_length ->
  NoDup (dict_keys (entries buf)) ->
  let bound := max_length - max_length mod sequence_length in
  exists cur buf',
    num_experiences buf = (inr cur, buf) /\
    truncate max_length sequence_length buf = (inr tt, buf') /\
    num_experiences buf' = (inr (Z.min cur bound), buf') /\
    Z.min cur bound <= max_length /\
    truncate max_length sequence_length buf' = (inr tt, buf').
Proof.
  intros Hs Hm Hnd bound.
  pose proof (Z.mod_pos_bound max_length sequence_length ltac:(lia)) as Hr.
  pose proof (Z.mod_le max_length sequence_length ltac:(lia) ltac:(lia)).
  destruct (truncate_run buf max_length sequence_length Hs)
    as (cur & Hcur & Hpos & Hrun). fold bound in Hrun.
  assert (Hnoop : forall b c,
            num_experiences b = (inr c, b) -> c <= bound ->
            truncate max_length sequence_length b = (inr tt, b)).
  { intros b c Hc Hle.
    destruct (truncate_run b max_length sequence_length Hs)
      as (c' & Hc' & _ & Hrun'). fold bound in Hrun'.
    assert (c' = c) by congruence. subst c'.
    destruct (Z.gtb_spec c bound); [lia | exact Hrun']. }
  destruct (Z.gtb_spec cur bound) as [Hgt|Hle].
  - set (F := fun e =>
                entry_assign
                  (slice (Some (cur - bound)) None (entry_items e)) e)
      in *.
    set (buf' := fold_left (fun b k => touch F k b)
                   (dict_keys (entries buf)) buf) in *.
    assert (Hnum : num_experiences buf' = (inr bound, buf')).
    { apply (num_experiences_touch F buf cur bound Hnd Hcur); [lia|].
      intros e He. unfold F.
      rewrite entry_items_assign, slice_from by lia.
      unfold len in *. rewrite length_skipn. lia. }
    exists cur, buf'. split; [exact Hcur|]. split; [exact Hrun|].
    rewrite Z.min_r by lia. split; [exact Hnum|]. split; [lia|].
    apply (Hnoop buf' bound Hnum). lia.
  - exists cur, buf. split; [exact Hcur|]. split; [exact Hrun|].
    rewrite Z.min_l by lia. split; [exact Hcur|]. split; [lia|].
    now apply (Hnoop buf cur).
Qed.

(** *** make_mini_batch *)

Lemma firstn_plus {A : Type} m k (l : list A) :
  firstn (m + k) l = firstn m l ++ firstn k (skipn m l).
Proof.
  revert l. induction m as [|m IH]; intros [|x l]; simpl;
    try reflexivity; [now rewrite firstn_nil | now rewrite IH].
Qed.

(** Two slices that meet make one. *)
Lemma slice_split {A : Type} a b c (l : list A) :
  0 <= a <= b -> b <= c ->
  slice (Some a) (Some c) l
  = slice (Some a) (Some b) l ++ slice (Some b) (Some c) l.
Proof.
  intros Hab Hbc. rewrite !slice_window by lia.
  replace (Z.to_nat (c - a))
    with (Z.to_nat (b - a) + Z.to_nat (c - b))%nat by lia.
  rewrite firstn_plus, skipn_skipn. do 3 f_equal. lia.
Qed.

Lemma slice_all {A : Type} c (l : list A) :
  len l <= c -> slice (Some 0) (Some c) l = l.
Proof.
  intros Hc. rewrite slice_window by (pose proof (len_nonneg l); lia).
  cbn [Z.to_nat skipn]. apply firstn_all2. unfold len in Hc. lia.
Qed.

Lemma len_slice_le {A : Type} start stop (l : list A) :
  len (slice start stop l) <= len l.
Proof.
  unfold slice, len. rewrite length_firstn, length_skipn. lia.
Qed.

(** X10: [make_mini_batch] never raises and leaves the source as it is,
    whatever the two bounds are: under every key of the source the result
    holds the slice [items[start:stop]] as a plain list, bounds beyond the
    items being clamped, so it is never longer than the items, and the
    result has no other key. The mini-batches of two ranges that meet,
    [[a, b)] and [[b, c)] with [0 <= a <= b <= c], hold under every key of
    the source the two halves of what the mini-batch of [[a, c)] holds,
    and the mini-batch of [[0, c)] holds all the items when [c] is at
    least their number. *)
Theorem make_mini_batch_splits buf a b c :
  (forall start stop,
     exists mb,
       make_mini_batch start stop buf = (inr mb, buf) /\
       (forall k e, dict_get k (entries buf) = Some e ->
          dict_get k (entries mb)
          = Some (PyList (slice (Some start) (Some stop) (entry_items e))) /\
          len (slice (Some start) (Some stop) (entry_items e))
          <= len (entry_items e)) /\
       (forall k, dict_get k (entries buf) = None ->
          dict_get k (entries mb) = None)) /\
  (0 <= a <= b -> b <= c ->
   exists m1 m2 m3,
     make_mini_batch a b buf = (inr m1, buf) /\
     make_mini_batch b c buf = (inr m2, buf) /\
     make_mini_batch a c buf = (inr m3, buf) /\
     forall k e, dict_get k (entries buf) = Some e ->
       exists l1 l2,
         dict_get k (entries m1) = Some (PyList l1) /\
         dict_get k (entries m2) = Some (PyList l2) /\
         dict_get k (entries m3) = Some (PyList (l1 ++ l2)) /\
         (a = 0 -> len (entry_items e) <= c -> l1 ++ l2 = entry_items e)).
Proof.
  split.
  { intros start stop.
    destruct (make_mini_batch_run start stop buf) as (mb & Hrun & Hin & Hout).
    exists mb. split; [exact Hrun|]. split; [|exact Hout].
    intros k e He. split; [exact (Hin k e He)|]. apply len_slice_le. }
  intros Hab Hbc.
  destruct (make_mini_batch_run a b buf) as (m1 & H1 & G1 & _).
  destruct (make_mini_batch_run b c buf) as (m2 & H2 & G2 & _).
  destruct (make_mini_batch_run a c buf) as (m3 & H3 & G3 & _).
  exists m1, m2, m3. repeat split; auto.
  intros k e He. do 2 eexists.
  split; [apply (G1 k e He)|]. split; [apply (G2 k e He)|].
  rewrite (G3 k e He), (slice_split a b c) by lia. split; [reflexivity|].
  intros -> Hc. rewrite <- (slice_split 0 b c) by lia. now apply slice_all.
Qed.

(** X11: what [make_mini_batch] returns holds plain lists, so it cannot
    be reset: when the source has a key, [reset_agent] on the mini-batch
    raises [AttributeError] and changes nothing. *)
Theorem mini_batch_cannot_be_reset buf start stop :
  entries buf <> [] ->
  exists mb,
    make_mini_batch start stop buf = (inr mb, buf) /\
    reset_agent mb = (inl AttributeError, mb).
Proof.
  intros Hne.
  assert (Hk : exists k0 e0, dict_get k0 (entries buf) = Some e0).
  { destruct (entries buf) as [|[k0 e0] rest]; [now elim Hne|].
    exists k0, e0. simpl. now rewrite String.eqb_refl. }
  destruct Hk as (k0 & e0 & Hk0).
  destruct (make_mini_batch_run start stop buf) as (mb & Hrun & Hin & Hout).
  exists mb. split; [exact Hrun|].
  pose proof (Hin k0 e0 Hk0) as H0.
  assert (Hfirst : exists k1 l rest', entries mb = (k1, PyList l) :: rest').
  { destruct (entries mb) as [|[k1 e1] rest']; [discriminate|].
    destruct (dict_get k1 (entries buf)) as [e|] eqn:E.
    - specialize (Hin k1 e E). simpl in Hin.
      rewrite String.eqb_refl in Hin. injection Hin as ->. eauto.
    - specialize (Hout k1 E). simpl in Hout.
      rewrite String.eqb_refl in Hout. discriminate. }
  destruct Hfirst as (k1 & l & rest' & Em).
  pose proof (first_entry_get _ _ _ _ Em) as H1.
  unfold reset_agent. rewrite (bind_run _ _ _ _ _ (keys_run mb)).
  rewrite Em. cbn [dict_keys map fst for_each].
  apply bind_raise. apply bind_raise. unfold call_field.
  now rewrite (bind_run _ _ _ _ _ (getitem_present _ _ _ H1)).
Qed.

(** *** shuffle *)

(** [shuffle] on names that are keys, the first one [k0]. *)
Lemma shuffle_run buf names k0 rest sequence_length n g :
  names = k0 :: rest -> sequence_length <> 0 ->
  same_length buf names n ->
  let perm := fst (random_shuffle (arange (n / sequence_length)) g) in
  let g' := snd (random_shuffle (arange (n / sequence_length)) g) in
  shuffle sequence_length (Some names) (buf, g)
  = (inr tt,
     (fold_left
        (fun b k =>
           touch (fun e =>
                    entry_assign
                      (flat_map (fun i =>
                         slice (Some (i * sequence_length))
                           (Some ((i + 1) * sequence_length))
                           (entry_items e)) perm) e) k b)
        names buf, g')).
Proof.
  intros Enames Hs Hsame perm g'.
  destruct (check_length_run names buf) as (ok & Hrun & Hiff).
  assert (ok = true) by (apply Hiff; right; eauto). subst ok.
  destruct (Hsame k0) as (e0 & He0 & Hlen0); [rewrite Enames; now left|].
  unfold shuffle.
  rewrite (bind_run (ret names) _ (buf, g) names (buf, g) eq_refl).
  rewrite (bind_run _ _ _ _ _ (on_self_run _ _ g _ _ Hrun)).
  cbn [negb]. rewrite Enames at 1.
  rewrite (bind_run (ret k0) _ (buf, g) k0 (buf, g) eq_refl).
  rewrite (bind_run _ _ _ _ _
             (on_self_run _ _ g _ _ (getitem_present _ _ _ He0))).
  rewrite (bind_run _ _ _ _ _ (floordiv_run _ sequence_length (buf, g) Hs)).
  rewrite Hlen0.
  rewrite (bind_run _ _ _ _ _ (np_random_shuffle_run _ buf g)).
  fold perm g'.
  apply (for_each_touch_on_self _ _ g').
  - intros k b e He. exact (shuffle_body _ _ k e b g' He).
  - intros k Hk. apply dict_get_in_keys.
    destruct (Hsame k Hk) as (e & He & _). eauto.
Qed.

(** The runs in their own order are the items they cover. *)
Lemma reorder_arange sequence_length c (l : list elem) :
  0 <= sequence_length -> 0 <= c ->
  reorder sequence_length (arange c) l
  = firstn (Z.to_nat (c * sequence_length)) l.
Proof.
  intros Hs Hc. unfold arange, range, reorder.
  replace (c - 0) with c by lia.
  rewrite <- (Z2Nat.id c Hc) at 2. generalize (Z.to_nat c) as m. clear c Hc.
  induction m as [|m IH]; [reflexivity|].
  rewrite seq_S, map_app, flat_map_app, IH. cbn [map flat_map Nat.add].
  rewrite app_nil_r. unfold chunk.
  replace (Z.to_nat ((0 + Z.of_nat m) * sequence_length))
    with (Z.to_nat (Z.of_nat m * sequence_length)) by (f_equal; lia).
  rewrite <- firstn_plus. f_equal. nia.
Qed.

(** X12: [shuffle] over different names that are keys of fields as long
    as each other only moves items around: each named field ends with a
    permutation of its first [floor(n/s) * s] items and the padding value
    it had; no key is added or moved, what is under a key that is not
    named stays, and so do the two auxiliary slots. *)
Theorem shuffle_keeps_the_items buf names sequence_length n g :
  RandomStateLaws R ->
  1 <= sequence_length -> NoDup names -> names <> [] ->
  same_length buf names n ->
  exists buf' g',
    shuffle sequence_length (Some names) (buf, g) = (inr tt, (buf', g')) /\
    dict_keys (entries buf') = dict_keys (entries buf) /\
    last_brain_info buf' = last_brain_info buf /\
    last_take_action_outputs buf' = last_take_action_outputs buf /\
    (forall k, ~ In k names ->
       dict_get k (entries buf') = dict_get k (entries buf)) /\
    (forall k e, In k names -> dict_get k (entries buf) = Some e ->
       exists e',
         dict_get k (entries buf') = Some e' /\
         entry_padding e' = entry_padding e /\
         Permutation (entry_items e')
           (firstn (Z.to_nat (n / sequence_length * sequence_length))
              (entry_items e))).
Proof.
  intros Laws Hs Hnd Hne Hsame.
  destruct names as [|k0 rest] eqn:Enames; [now elim Hne|].
  rewrite <- Enames in *.
  pose proof (shuffle_run buf names k0 rest sequence_length n g Enames
                ltac:(lia) Hsame) as Hrun.
  cbv zeta in Hrun.
  set (c := n / sequence_length) in *.
  set (perm := fst (random_shuffle (arange c) g)) in *.
  set (F := fun e => entry_assign _ e) in Hrun.
  assert (Hperm : Permutation perm (arange c)) by apply random_shuffle_perm.
  assert (Hin : forall i, In i perm -> 0 <= i < c).
  { intros i Hi. apply (Permutation_in _ Hperm) in Hi.
    now apply in_range in Hi. }
  assert (Hc : 0 <= c).
  { destruct (Hsame k0) as (e0 & _ & Hl); [rewrite Enames; now left|].
    apply Z.div_pos; [|lia]. rewrite <- Hl. apply len_nonneg. }
  do 2 eexists. split; [exact Hrun|]. cbn [fst].
  split; [apply touch_all_keys|].
  split; [apply (touch_all_slots F names buf)|].
  split; [apply (touch_all_slots F names buf)|].
  split; [intros k Hk; now apply touch_all_other|].
  intros k e Hk He. exists (F e).
  split; [now apply touch_all_once|].
  split; [unfold F; now destruct e|].
  unfold F. rewrite entry_items_assign.
  rewrite (shuffle_slices _ _ c) by (auto; lia).
  rewrite <- (reorder_arange sequence_length c) by lia.
  unfold reorder. now apply Permutation_flat_map.
Qed.

(** X13: [shuffle] of nothing raises [IndexError]: with the names left
    out on a buffer that has no key, and with an empty list of names,
    the first name is read after [check_length] let the list pass;
    buffer and random source are as before. *)
Theorem shuffle_of_nothing buf sequence_length key_list g :
  key_list = Some [] \/ (key_list = None /\ entries buf = []) ->
  shuffle sequence_length key_list (buf, g) = (inl IndexError, (buf, g)).
Proof.
  intros [-> | [-> Hempty]]; [reflexivity|]. unfold shuffle.
  rewrite (bind_run _ _ _ _ _ (on_self_run _ _ g _ _ (keys_run buf))).
  rewrite Hempty. reflexivity.
Qed.

(** X14: [shuffle] with one name that is not a key does not fail: one
    name passes [check_length], reading it creates the field, and the
    buffer ends with this new, empty field as its last key. *)
Theorem shuffle_creates_the_field buf k sequence_length g :
  RandomStateLaws R ->
  sequence_length <> 0 -> dict_get k (entries buf) = None ->
  shuffle sequence_length (Some [k]) (buf, g)
  = (inr tt, (store k (Field new_field) buf, snd (random_shuffle [] g))).
Proof.
  intros Laws Hs Hk. unfold shuffle.
  rewrite (bind_run (ret [k]) _ (buf, g) [k] (buf, g) eq_refl).
  rewrite (bind_run _ _ (buf, g) true (buf, g)) by reflexivity.
  cbn [negb].
  rewrite (bind_run (ret k) _ (buf, g) k (buf, g) eq_refl).
  rewrite (bind_run _ _ _ _ _
             (on_self_run _ _ g _ _ (getitem_absent _ _ Hk))).
  set (buf1 := store k (Field new_field) buf).
  rewrite (bind_run _ _ _ _ _ (floordiv_run _ sequence_length (buf1, g) Hs)).
  change (len (entry_items (Field new_field))) with 0.
  rewrite Z.div_0_l by exact Hs. change (arange 0) with (@nil Z).
  rewrite (bind_run _ _ _ _ _ (np_random_shuffle_run _ buf1 g)).
  assert (Hnil : fst (random_shuffle [] g) = []).
  { apply Permutation_nil. symmetry. apply random_shuffle_perm. }
  rewrite Hnil. cbn [for_each fold_for].
  assert (H1 : dict_get k (entries buf1) = Some (Field new_field))
    by apply dict_get_set_same.
  apply bind_ret.
  rewrite (bind_run (ret []) _ _ [] _ eq_refl).
  rewrite (on_self_run _ _ _ _ _ (assign_slice_present _ _ [] buf1 H1)).
  cbn [entry_assign padding_value new_field]. fold new_field.
  now rewrite (store_same _ _ _ H1).
Qed.

(** *** reset_agent *)

(** X15: after [reset_agent] on a buffer of fields the number of
    experiences is 0, and [check_length] holds for every list of names
    that are keys. *)
Theorem reset_agent_empties buf names :
  all_fields buf ->
  (forall k, In k names -> In k (dict_keys (entries buf))) ->
  exists buf',
    reset_agent buf = (inr tt, buf') /\
    num_experiences buf' = (inr 0, buf') /\
    check_length names buf' = (inr true, buf').
Proof.
  intros Hall Hnames.
  set (buf1 := fold_left (fun b k => touch (entry_assign []) k b)
                 (dict_keys (entries buf)) buf).
  assert (Hloop : for_each (dict_keys (entries buf))
                    (fun k => call_field k reset_field) buf
                  = (inr tt, buf1)).
  { apply (for_each_touch is_field); auto.
    - intros e [f0 ->]. now exists (mkField [] (padding_value f0)).
    - intros k b e. apply call_reset_field. }
  set (buf' := mkBuffer (entries buf1) None None).
  assert (Hget : forall k, In k (dict_keys (entries buf)) ->
            exists e, dict_get k (entries buf') = Some e /\
                      len (entry_items e) = 0).
  { intros k Hk. apply dict_get_in_keys in Hk. destruct Hk as [e He].
    exists (entry_assign [] e). split; [|now rewrite entry_items_assign].
    unfold buf', buf1. cbn [entries].
    apply touch_all_idem; [now intros [f|l] | | exact He].
    apply dict_get_in_keys. eauto. }
  exists buf'. split; [|split].
  - unfold reset_agent. rewrite (bind_run _ _ _ _ _ (keys_run buf)).
    now rewrite (bind_run _ _ _ _ _ Hloop).
  - assert (Hfirst : forall k1 e1 rest',
              entries buf' = (k1, e1) :: rest' -> len (entry_items e1) = 0).
    { intros k1 e1 rest' Eb'.
      pose proof (first_entry_get _ _ _ _ Eb') as H1.
      assert (Hk1 : In k1 (dict_keys (entries buf))).
      { rewrite <- (touch_all_keys (entry_assign [])
                      (dict_keys (entries buf)) buf). fold buf1.
        change (entries buf1) with (entries buf'). rewrite Eb'. now left. }
      destruct (Hget k1 Hk1) as (e & He & Hl).
      assert (e = e1) by congruence. now subst e. }
    unfold num_experiences, bind, get, ret.
    destruct (entries buf') as [|[k1 e1] rest']; [reflexivity|].
    now rewrite (Hfirst k1 e1 rest' eq_refl).
  - destruct (check_length_run names buf') as (ok & Hrun & Hiff).
    assert (ok = true); [|now subst ok].
    apply Hiff. right. exists 0. intros k Hk. auto.
Qed.


(** *** resequence_and_append *)

Lemma getitem_ensures k buf :
  exists e buf',
    getitem k buf = (inr e, buf') /\
    dict_get k (entries buf') = Some e /\
    entry_items e = items_under k buf /\
    (forall k', k' <> k ->
       dict_get k' (entries buf') = dict_get k' (entries buf)).
Proof.
  unfold items_under. destruct (dict_get k (entries buf)) as [e0|] eqn:E.
  - exists e0, buf. rewrite (getitem_present _ _ _ E). now repeat split.
  - exists (Field new_field), (store k (Field new_field) buf).
    rewrite (getitem_absent _ _ E). repeat split.
    + apply dict_get_set_same.
    + intros k' Hne. now apply dict_get_set_other.
Qed.

Lemma call_field_present {A : Type} k (m : M AgentBufferField A) f buf :
  dict_get k (entries buf) = Some (Field f) ->
  call_field k m buf = (fst (m f), store k (Field (snd (m f))) buf).
Proof.
  intros He. unfold call_field.
  rewrite (bind_run _ _ _ _ _ (getitem_present _ _ _ He)).
  destruct (m f) as [r f']. now rewrite (bind_run _ _ _ _ _ (setitem_run _ _ _)).
Qed.

Lemma extend_item_present k e data buf :
  dict_get k (entries buf) = Some e ->
  extend_item k data buf = (inr tt, store k (entry_extend data e) buf).
Proof.
  intros H. unfold extend_item.
  now rewrite (bind_run _ _ _ _ _ (getitem_present _ _ _ H)).
Qed.

(** A loop over different items, with what holds after each of them. *)
Lemma for_each_invariant {S A : Type} (body : A -> M S unit)
    (Inv : list A -> S -> Prop) xs :
  (forall pre x s, In x xs -> ~ In x pre -> Inv pre s ->
     exists s', body x s = (inr tt, s') /\ Inv (pre ++ [x]) s') ->
  forall pre s, NoDup (pre ++ xs) -> Inv pre s ->
    exists s', for_each xs body s = (inr tt, s') /\ Inv (pre ++ xs) s'.
Proof.
  induction xs as [|x xs IH]; intros Hstep pre s Hnd Hinv.
  - exists s. rewrite app_nil_r. now split.
  - assert (Hx : ~ In x pre).
    { apply NoDup_remove_2 in Hnd. intros H. apply Hnd.
      apply in_or_app. now left. }
    destruct (Hstep pre x s (or_introl eq_refl) Hx Hinv) as (s1 & Hrun & H1).
    destruct (IH (fun p y s0 Hy => Hstep p y s0 (or_intror Hy))
                (pre ++ [x]) s1) as (s' & Hrun' & H');
      [now rewrite <- app_assoc | exact H1 |].
    exists s'. cbn [for_each]. rewrite (bind_run _ _ _ _ _ Hrun).
    split; [exact Hrun'|]. now rewrite <- app_assoc in H'.
Qed.

(** The sequential [get_batch] within the maximum. *)
Lemma get_batch_sequential_ok (f : AgentBufferField) b t n :
  1 <= t -> len (items f) = n ->
  (b = None \/ exists b0, b = Some b0 /\ b0 <= max_batch_size n t true) ->
  exists batch,
    get_batch b (Some t) true f = (inr batch, f) /\
    len batch = sequential_items n t b.
Proof.
  intros Ht Hn Hb.
  destruct (sequential_bound n t Ht ltac:(rewrite <- Hn; apply len_nonneg))
    as (Hb0 & Hexact & Hpart & Hle).
  pose proof (Z.mod_pos_bound n t ltac:(lia)) as Hr.
  rewrite get_batch_sequential_run by lia. rewrite Hn.
  unfold max_batch_size in Hb.
  replace (n / t + (if n mod t =? 0 then 0 else 1))
    with (n / t + 1 * Z.b2z (negb (n mod t =? 0))) in Hb
    by (destruct (n mod t =? 0); reflexivity).
  set (bound := n / t + 1 * Z.b2z (negb (n mod t =? 0))) in *.
  set (bs := match b with None => bound | Some b0 => b0 end).
  assert (Hbs : bs <= bound)
    by (destruct Hb as [-> | (b0 & -> & ?)]; unfold bs; lia).
  assert (Hceil : ceil_div n t * t = bound * t).
  { destruct (Z.eq_dec (n mod t) 0) as [E|E].
    - rewrite ceil_div_exact, Hexact by (auto; lia). reflexivity.
    - rewrite ceil_div_partial, Hpart by (auto; lia). reflexivity. }
  assert (Hseq : sequential_items n t b
                 = if bs * t >? n then bound * t else Z.max 0 (bs * t)).
  { unfold sequential_items, bs.
    destruct Hb as [-> | (b0 & -> & ?)]; rewrite Hceil; [|reflexivity].
    destruct (Z.gtb_spec (bound * t) n); lia. }
  rewrite Hseq. destruct (Z.gtb_spec bs bound) as [?|_]; [lia|].
  destruct (Z.gtb_spec (bs * t) n) as [Hpad|Hfit].
  - assert (Hne : n mod t <> 0) by (intros E; specialize (Hexact E); nia).
    destruct (rev (items f)) as [|last rest] eqn:Erev.
    + exfalso. apply (f_equal (@List.length _)) in Erev.
      rewrite length_rev in Erev. unfold len in Hn. rewrite Erev in Hn.
      subst n. now apply Hne.
    + eexists. split; [reflexivity|].
      rewrite len_app, len_replicate, Hn by lia. rewrite (Hpart Hne). lia.
  - eexists. split; [reflexivity|].
    destruct (Z.le_gt_cases 0 bs).
    + rewrite slice_from by lia. unfold len in *. rewrite length_skipn. nia.
    + rewrite slice_from by nia. unfold len in *. rewrite length_skipn. nia.
Qed.

(** X16: [resequence_and_append] from fields as long as each other,
    under different names, into another buffer, with a batch size that
    is left out or not over the maximum: it succeeds, the source stays
    as it is, and every named field of the target, created when it was
    not there, gets after its items the batch of the source field, the
    same number of items for every name, so fields of the target that
    were as long as each other still are; other keys of the target
    stay. *)
Theorem resequence_extends_the_target (h : heap) self target_buffer names
    batch_size t n :
  self <> target_buffer -> NoDup names -> 1 <= t ->
  (forall k, In k names ->
     exists f, dict_get k (entries (h self)) = Some (Field f) /\
               len (items f) = n) ->
  (batch_size = None \/
   exists b0, batch_size = Some b0 /\ b0 <= max_batch_size n t true) ->
  exists h',
    resequence_and_append self target_buffer (Some names)
      batch_size (Some t) h = (inr tt, h') /\
    h' self = h self /\
    (forall k, In k names ->
       exists f batch e',
         dict_get k (entries (h self)) = Some (Field f) /\
         get_batch batch_size (Some t) true f = (inr batch, f) /\
         len batch = sequential_items n t batch_size /\
         dict_get k (entries (h' target_buffer)) = Some e' /\
         entry_items e' = items_under k (h target_buffer) ++ batch) /\
    (forall k, ~ In k names ->
       dict_get k (entries (h' target_buffer))
       = dict_get k (entries (h target_buffer))).
Proof.
  intros Hne Hnd Ht Hsrc Hb.
  assert (Hst : Nat.eqb self target_buffer = false) by now apply Nat.eqb_neq.
  assert (Hts : Nat.eqb target_buffer self = false)
    by (apply Nat.eqb_neq; congruence).
  destruct (check_length_run names (h self)) as (ok & Hcheck & Hiff).
  assert (ok = true).
  { apply Hiff. right. exists n. intros k Hk.
    destruct (Hsrc k Hk) as (f & Hf & Hl). eauto. }
  subst ok.
  set (h0 := fun y => if Nat.eqb y self then h self else h y).
  set (Inv := fun (pre : list string) (hh : heap) =>
    hh self = h self /\
    (forall k, In k pre ->
       exists f batch e',
         dict_get k (entries (h self)) = Some (Field f) /\
         get_batch batch_size (Some t) true f = (inr batch, f) /\
         len batch = sequential_items n t batch_size /\
         dict_get k (entries (hh target_buffer)) = Some e' /\
         entry_items e' = items_under k (h target_buffer) ++ batch) /\
    (forall k, ~ In k pre ->
       dict_get k (entries (hh target_buffer))
       = dict_get k (entries (h target_buffer)))).
  assert (Hloop : exists h',
            for_each names (fun field_key =>
              at_ref target_buffer (getitem field_key) ;;
              batch <- at_ref self
                         (call_field field_key
                            (get_batch batch_size (Some t) true)) ;;
              at_ref target_buffer (extend_item field_key batch)) h0
            = (inr tt, h') /\ Inv ([] ++ names) h').
  { apply for_each_invariant; [|exact Hnd|].
    - intros pre x hh Hx Hpre (Hself & Hin & Hout).
      destruct (Hsrc x Hx) as (f & Hf & Hl).
      destruct (get_batch_sequential_ok f batch_size t n Ht Hl Hb)
        as (batch & Hbatch & Hlen).
      destruct (getitem_ensures x (hh target_buffer))
        as (e & T1 & Hget & He & Hitems & Hother).
      rewrite (bind_run _ _ _ _ _ (at_ref_run _ hh target_buffer _ _ Hget)).
      set (h2 := fun y => if Nat.eqb y target_buffer then T1 else hh y).
      assert (H2 : call_field x (get_batch batch_size (Some t) true)
                     (h2 self) = (inr batch, h self)).
      { unfold h2. rewrite Hst, Hself.
        rewrite (call_field_present _ _ f _ Hf), Hbatch. cbn [fst snd].
        now rewrite (store_same _ _ _ Hf). }
      rewrite (bind_run _ _ _ _ _ (at_ref_run _ h2 self _ _ H2)).
      set (h3 := fun y => if Nat.eqb y self then h self else h2 y).
      assert (H3 : extend_item x batch (h3 target_buffer)
                   = (inr tt, store x (entry_extend batch e) T1)).
      { unfold h3, h2. rewrite Hts, Nat.eqb_refl.
        now apply extend_item_present. }
      rewrite (at_ref_run _ h3 target_buffer _ _ H3).
      eexists. split; [reflexivity|]. unfold Inv. cbv beta.
      rewrite Hst, Nat.eqb_refl. unfold h3 at 1. rewrite Nat.eqb_refl.
      split; [reflexivity|]. unfold store. cbn [entries]. split.
      + intros k Hk. apply in_app_or in Hk.
        destruct (String.eqb_spec k x) as [->|Hkx].
        * exists f, batch, (entry_extend batch e).
          repeat split; auto; [apply dict_get_set_same|].
          unfold entry_extend. rewrite entry_items_assign, Hitems.
          unfold items_under. now rewrite (Hout x Hpre).
        * destruct Hk as [Hk|[->|[]]]; [|contradiction].
          destruct (Hin k Hk) as (f' & batch' & e' & H1 & H2' & H3' & H4 & H5).
          exists f', batch', e'. repeat split; auto.
          rewrite dict_get_set_other, Hother by exact Hkx. exact H4.
      + intros k Hk.
        assert (Hkx : k <> x)
          by (intros ->; apply Hk; apply in_or_app; right; now left).
        rewrite dict_get_set_other, Hother by exact Hkx.
        apply Hout. intros H. apply Hk. apply in_or_app. now left.
    - unfold Inv, h0. rewrite Nat.eqb_refl, Hts.
      split; [reflexivity|]. split; [intros k []|reflexivity]. }
  destruct Hloop as (h' & Hrun & Hself & Hin & Hout).
  exists h'. split; [|now repeat split].
  unfold resequence_and_append.
  rewrite (bind_run (ret names) _ h names h eq_refl).
  rewrite (bind_run _ _ _ _ _ (at_ref_run _ h self _ _ Hcheck)).
  exact Hrun.
Qed.

(** X17: [resequence_and_append] has to be given a training length. With
    the default, [None], and a list of names that passes [check_length]
    and begins with a field of the source, it raises [TypeError]: the
    length of the field is taken modulo [None]. *)
Theorem resequence_needs_a_training_length (h : heap) self target_buffer
    k rest batch_size f :
  fst (check_length (k :: rest) (h self)) = inr true ->
  dict_get k (entries (h self)) = Some (Field f) ->
  fst (resequence_and_append self target_buffer (Some (k :: rest))
         batch_size None h) = inl TypeError.
Proof.
  intros Hok Hf.
  destruct (check_length_run (k :: rest) (h self)) as (ok & Hcheck & _).
  rewrite Hcheck in Hok. cbn [fst] in Hok. injection Hok as ->.
  unfold resequence_and_append.
  rewrite (bind_run (ret (k :: rest)) _ h (k :: rest) h eq_refl).
  rewrite (bind_run _ _ _ _ _ (at_ref_run _ h self _ _ Hcheck)).
  cbn [negb for_each].
  set (h0 := fun y => if Nat.eqb y self then h self else h y).
  destruct (getitem_ensures k (h0 target_buffer))
    as (e & T1 & Hget & He & _ & _).
  set (h1 := fun y => if Nat.eqb y target_buffer then T1 else h0 y).
  assert (Hf1 : dict_get k (entries (h1 self)) = Some (Field f)).
  { unfold h1. destruct (Nat.eqb_spec self target_buffer) as [<-|_].
    - assert (Hp : dict_get k (entries (h0 self)) = Some (Field f))
        by (unfold h0; now rewrite Nat.eqb_refl).
      rewrite (getitem_present _ _ _ Hp) in Hget.
      injection Hget as _ <-. exact Hp.
    - unfold h0. now rewrite Nat.eqb_refl. }
  pose proof (call_field_present k (get_batch batch_size None true) f
                (h1 self) Hf1) as Hcall.
  change (fst (get_batch batch_size None true f))
    with (@inl exn (list elem) TypeError) in Hcall.
  rewrite (bind_raise _ _ h0 TypeError
             (fun y => if Nat.eqb y self
                       then store k
                              (Field (snd (get_batch batch_size None true f)))
                              (h1 self)
                       else h1 y)); [reflexivity|].
  rewrite (bind_run _ _ _ _ _ (at_ref_run _ h0 target_buffer _ _ Hget)).
  apply bind_raise. exact (at_ref_run _ h1 self _ _ Hcall).
Qed.


(** X18: the target of [resequence_and_append] may be the receiver.
    Under different names of fields as long as each other, and with a
    batch size that is left out or not over the maximum, every named
    field then gets its own batch after its items, the batch being taken
    before the field grows; the other keys stay. *)
Theorem resequence_onto_itself (h : heap) self names batch_size t n :
  NoDup names -> 1 <= t ->
  (forall k, In k names ->
     exists f, dict_get k (entries (h self)) = Some (Field f) /\
               len (items f) = n) ->
  (batch_size = None \/
   exists b0, batch_size = Some b0 /\ b0 <= max_batch_size n t true) ->
  exists h',
    resequence_and_append self self (Some names) batch_size (Some t) h
    = (inr tt, h') /\
    (forall k, In k names ->
       exists f batch,
         dict_get k (entries (h self)) = Some (Field f) /\
         get_batch batch_size (Some t) true f = (inr batch, f) /\
         dict_get k (entries (h' self))
         = Some (Field (mkField (items f ++ batch) (padding_value f)))) /\
    (forall k, ~ In k names ->
       dict_get k (entries (h' self)) = dict_get k (entries (h self))).
Proof.
  intros Hnd Ht Hsrc Hb.
  destruct (check_length_run names (h self)) as (ok & Hcheck & Hiff).
  assert (ok = true).
  { apply Hiff. right. exists n. intros k Hk.
    destruct (Hsrc k Hk) as (f & Hf & Hl). eauto. }
  subst ok.
  set (h0 := fun y => if Nat.eqb y self then h self else h y).
  set (Inv := fun (pre : list string) (hh : heap) =>
    (forall k, In k pre ->
       exists f batch,
         dict_get k (entries (h self)) = Some (Field f) /\
         get_batch batch_size (Some t) true f = (inr batch, f) /\
         dict_get k (entries (hh self))
         = Some (Field (mkField (items f ++ batch) (padding_value f)))) /\
    (forall k, ~ In k pre ->
       dict_get k (entries (hh self)) = dict_get k (entries (h self)))).
  assert (Hloop : exists h',
            for_each names (fun field_key =>
              at_ref self (getitem field_key) ;;
              batch <- at_ref self
                         (call_field field_key
                            (get_batch batch_size (Some t) true)) ;;
              at_ref self (extend_item field_key batch)) h0
            = (inr tt, h') /\ Inv ([] ++ names) h').
  { apply for_each_invariant; [|exact Hnd|].
    - intros pre x hh Hx Hpre (Hin & Hout).
      destruct (Hsrc x Hx) as (f & Hf & Hl).
      destruct (get_batch_sequential_ok f batch_size t n Ht Hl Hb)
        as (batch & Hbatch & _).
      assert (Hfx : dict_get x (entries (hh self)) = Some (Field f))
        by now rewrite (Hout x Hpre).
      rewrite (bind_run _ _ _ _ _
                 (at_ref_run _ hh self _ _ (getitem_present _ _ _ Hfx))).
      set (h1 := fun y => if Nat.eqb y self then hh self else hh y).
      assert (H1 : call_field x (get_batch batch_size (Some t) true)
                     (h1 self) = (inr batch, hh self)).
      { unfold h1. rewrite Nat.eqb_refl.
        rewrite (call_field_present _ _ f _ Hfx), Hbatch. cbn [fst snd].
        now rewrite (store_same _ _ _ Hfx). }
      rewrite (bind_run _ _ _ _ _ (at_ref_run _ h1 self _ _ H1)).
      set (h2 := fun y => if Nat.eqb y self then hh self else h1 y).
      assert (H2 : extend_item x batch (h2 self)
                   = (inr tt,
                      store x (entry_extend batch (Field f)) (hh self))).
      { unfold h2. rewrite Nat.eqb_refl. now apply extend_item_present. }
      rewrite (at_ref_run _ h2 self _ _ H2).
      eexists. split; [reflexivity|]. unfold Inv. cbv beta.
      rewrite Nat.eqb_refl. unfold store. cbn [entries]. split.
      + intros k Hk. apply in_app_or in Hk.
        destruct (String.eqb_spec k x) as [->|Hkx].
        * exists f, batch. repeat split; auto. apply dict_get_set_same.
        * destruct Hk as [Hk|[->|[]]]; [|contradiction].
          destruct (Hin k Hk) as (f' & batch' & G1 & G2 & G3).
          exists f', batch'. repeat split; auto.
          now rewrite dict_get_set_other by exact Hkx.
      + intros k Hk.
        assert (Hkx : k <> x)
          by (intros ->; apply Hk; apply in_or_app; right; now left).
        rewrite dict_get_set_other by exact Hkx.
        apply Hout. intros H. apply Hk. apply in_or_app. now left.
    - unfold Inv, h0. rewrite Nat.eqb_refl.
      split; [intros k [] | reflexivity]. }
  destruct Hloop as (h' & Hrun & Hin & Hout).
  exists h'. split; [|now split].
  unfold resequence_and_append.
  rewrite (bind_run (ret names) _ h names h eq_refl).
  rewrite (bind_run _ _ _ _ _ (at_ref_run _ h self _ _ Hcheck)).
  exact Hrun.
Qed.


End BufferMore.


(** * Concrete runs *)

(** The deterministic random source is a random source. *)
Lemma CounterRandom_laws : RandomStateLaws CounterRandom.
Proof.
  split.
  - intros l g. cbn. symmetry. apply Permutation_rev.
  - intros high size g Hh Hs. cbn.
    destruct (Z.ltb_spec 0 high) as [_|?]; [|lia].
    destruct (Z.leb_spec 0 size) as [_|?]; [|lia].
    eexists. split; [reflexivity|]. split.
    + unfold len. rewrite length_map, length_seq. lia.
    + apply Forall_forall. intros i Hi. apply in_map_iff in Hi.
      destruct Hi as (k & <- & _). now apply Z.mod_pos_bound.
Qed.

(** The two examples of the docstring of [get_batch]. *)
Example get_batch_doc_seq :
  get_batch None (Some 2) true (mkField [1; 2; 3; 4; 5] 0)
  = (inr [0; 1; 2; 3; 4; 5], mkField [1; 2; 3; 4; 5] 0).
Proof. reflexivity. Qed.

Example get_batch_doc_overlap :
  get_batch None (Some 2) false (mkField [1; 2; 3; 4; 5] 0)
  = (inr [1; 2; 2; 3; 3; 4; 4; 5], mkField [1; 2; 3; 4; 5] 0).
Proof. reflexivity. Qed.

(** ** get_batch *)

Lemma get_batch_sequential_default_witness :
  0 < len (items five_items) /\ 1 <= 2 /\
  exists batch init last,
    get_batch None (Some 2) true five_items = (inr batch, five_items) /\
    len batch = ceil_div (len (items five_items)) 2 * 2 /\
    items five_items = init ++ [last] /\
    (len (items five_items) mod 2 <> 0 ->
     batch = repeat (scale last (padding_value five_items))
               (Z.to_nat (2 - len (items five_items) mod 2))
               ++ items five_items) /\
    (len (items five_items) mod 2 = 0 -> batch = items five_items).
Proof.
  split; [reflexivity|]. split; [lia|].
  apply (get_batch_sequential_default five_items 2); [reflexivity | lia].
Defined.

Lemma get_batch_overlapping_witness :
  0 <= 2 /\ 1 <= 4 <= len (items five_items) - 2 + 1 /\
  get_batch (Some 4) (Some 2) false five_items
  = (inr (flat_map (fun e => window 2 e (items five_items))
            (range (len (items five_items) - 4 + 1)
               (len (items five_items) + 1))), five_items).
Proof.
  split; [lia|]. split; [simpl; lia|].
  apply (get_batch_overlapping five_items 4 2); simpl; lia.
Defined.

Lemma get_batch_out_of_range_witness :
  (true = true -> 2 <> 0) /\
  ((exists e,
      fst (get_batch (Some 4) (Some 2) true five_items) = inl e /\
      OutOfRangeBatch e)
   <-> 4 > max_batch_size (len (items five_items)) 2 true).
Proof.
  split; [intros _; lia|].
  apply (get_batch_out_of_range five_items 4 2 true).
  intros _. lia.
Defined.

(** ** Buffers *)

(** Splits on the key a lookup in a concrete buffer is made with. *)
Ltac by_key H :=
  cbn in H;
  repeat match type of H with
         | context [String.eqb ?k ?s] => destruct (String.eqb k s)
         end;
  try discriminate; try (injection H as <-).

Lemma two_fields_all_fields : all_fields two_fields.
Proof. intros k e H. by_key H; eexists; reflexivity. Qed.

Lemma two_fields_same_length :
  same_length two_fields ["a"%string; "b"%string] 2.
Proof. intros k [<-|[<-|[]]]; eexists; split; reflexivity. Qed.


Lemma NoDup_a_b : NoDup ["a"%string; "b"%string].
Proof.
  constructor; [intros [H|[]]; discriminate|].
  constructor; [intros []|constructor].
Qed.

Lemma reset_clears_witness :
  all_fields two_fields /\
  reset_field five_items
  = (inr tt, mkField [] (padding_value five_items)) /\
  exists buf',
    reset_agent two_fields = (inr tt, buf') /\
    dict_keys (entries buf') = dict_keys (entries two_fields) /\
    (forall k f0, dict_get k (entries two_fields) = Some (Field f0) ->
       dict_get k (entries buf')
       = Some (Field (mkField [] (padding_value f0)))) /\
    last_brain_info buf' = None /\
    last_take_action_outputs buf' = None.
Proof.
  split; [exact two_fields_all_fields|].
  apply (reset_clears five_items two_fields two_fields_all_fields).
Defined.

(** C8 as stated fails where the fields are not as long as each other:
    the first field has five items, so [truncate(3, 1)] drops two items
    of every field, and the field of seven items keeps five, not its
    three most recent. *)
Lemma truncate_unequal_fields :
  num_experiences unequal_fields = (inr 5, unequal_fields) /\
  ~ (forall k e, dict_get k (entries unequal_fields) = Some e ->
       dict_get k (entries (snd (truncate 3 1 unequal_fields)))
       = Some (entry_assign (suffix 3 (entry_items e)) e)).
Proof.
  split; [reflexivity|]. intros H.
  specialize (H "b"%string _ eq_refl). vm_compute in H. discriminate.
Qed.

Lemma truncate_drops_oldest_witness :
  1 <= 1 /\ 0 <= 3 /\ NoDup (dict_keys (entries unequal_fields)) /\
  exists cur buf',
    num_experiences unequal_fields = (inr cur, unequal_fields) /\
    truncate 3 1 unequal_fields = (inr tt, buf') /\
    3 - 3 mod 1 = 1 * (3 / 1) /\
    (3 - 3 mod 1 < cur ->
     dict_keys (entries buf') = dict_keys (entries unequal_fields) /\
     forall k e, dict_get k (entries unequal_fields) = Some e ->
       dict_get k (entries buf')
       = Some (entry_assign
                 (skipn (Z.to_nat (cur - (3 - 3 mod 1))) (entry_items e))
                 e) /\
       (len (entry_items e) = cur ->
        skipn (Z.to_nat (cur - (3 - 3 mod 1))) (entry_items e)
        = suffix (3 - 3 mod 1) (entry_items e))) /\
    (cur <= 3 - 3 mod 1 -> buf' = unequal_fields).
Proof.
  split; [lia|]. split; [lia|]. split; [exact NoDup_a_b|].
  exact (proj1 (truncate_drops_oldest unequal_fields 3 1
                  ltac:(lia) ltac:(lia) NoDup_a_b)).
Defined.

(** C4 as stated fails for a name given twice: the field goes through
    the permutation once for each time it is named. With the names
    [a, a, b] and a shuffle that reverses, [a] is back in its order and
    [b] is reversed, which no one permutation does. *)
Lemma shuffle_repeated_name :
  let names := ["a"%string; "a"%string; "b"%string] in
  let w' := snd (shuffle 1 (Some names) (two_fields, 0%nat)) in
  same_length two_fields names 2 /\
  entries (fst w')
  = [("a"%string, Field (mkField [1; 2] 7));
     ("b"%string, Field (mkField [12; 11] 1))] /\
  ~ (exists perm,
       Permutation perm (arange (2 / 1)) /\
       forall k e, In k names ->
         dict_get k (entries two_fields) = Some e ->
         dict_get k (entries (fst w'))
         = Some (entry_assign (reorder 1 perm (entry_items e)) e)).
Proof.
  intros names w'. split; [|split; [reflexivity|]].
  - intros k [<-|[<-|[<-|[]]]]; eexists; split; reflexivity.
  - intros (perm & Hperm & H).
    pose proof (Permutation_length Hperm) as Hlen.
    destruct perm as [|p [|q [|r perm]]]; try discriminate Hlen.
    assert (Hp : p = 0 \/ p = 1).
    { assert (Hin : In p (arange (2 / 1)))
        by (apply (Permutation_in _ Hperm); now left).
      cbn in Hin. destruct Hin as [<-|[<-|[]]]; auto. }
    assert (Hq : q = 0 \/ q = 1).
    { assert (Hin : In q (arange (2 / 1)))
        by (apply (Permutation_in _ Hperm); right; now left).
      cbn in Hin. destruct Hin as [<-|[<-|[]]]; auto. }
    pose proof (H "a"%string _ (or_introl eq_refl) eq_refl) as Ha.
    pose proof (H "b"%string _ (or_intror (or_intror (or_introl eq_refl)))
                  eq_refl) as Hb.
    destruct Hp as [-> | ->], Hq as [-> | ->];
      vm_compute in Ha, Hb; discriminate.
Qed.

Lemma shuffle_consistent_witness :
  RandomStateLaws CounterRandom /\ 1 <= 1 /\
  NoDup ["a"%string; "b"%string] /\
  same_length two_fields ["a"%string; "b"%string] 2 /\
  exists perm w',
    Permutation perm (arange (2 / 1)) /\
    shuffle 1 (Some ["a"%string; "b"%string]) (two_fields, 0%nat)
    = (inr tt, w') /\
    (["a"%string; "b"%string] = [] -> w' = (two_fields, 0%nat)) /\
    (forall k e, In k ["a"%string; "b"%string] ->
       dict_get k (entries two_fields) = Some e ->
       dict_get k (entries (fst w'))
       = Some (entry_assign (reorder 1 perm (entry_items e)) e) /\
       len (reorder 1 perm (entry_items e)) = 2 / 1 * 1) /\
    (1 = 1 ->
     forall i, 0 <= i < 2 ->
       exists j, 0 <= j < 2 /\
         forall k e, In k ["a"%string; "b"%string] ->
           dict_get k (entries two_fields) = Some e ->
           exists e',
             dict_get k (entries (fst w')) = Some e' /\
             nth_error (entry_items e') (Z.to_nat i)
             = nth_error (entry_items e) (Z.to_nat j)).
Proof.
  split; [exact CounterRandom_laws|]. split; [lia|].
  split; [exact NoDup_a_b|]. split; [exact two_fields_same_length|].
  apply (shuffle_consistent (R := CounterRandom) two_fields ["a"%string; "b"%string] 1 2 0%nat
           CounterRandom_laws); [lia | exact NoDup_a_b|].
  exact two_fields_same_length.
Defined.


(** C10 at [make_mini_batch(0, 2)] on [two_fields]: the result is
    [two_lists]. What it holds under a key is the slice itself, a plain
    list, which has no padding value; it is not a field whose padding
    value is 0, as the claim has it and as [sample_mini_batch] makes it. *)
Lemma make_mini_batch_plain_list :
  make_mini_batch 0 2 two_fields = (inr two_lists, two_fields) /\
  dict_get "a"%string (entries two_lists) = Some (PyList [1; 2]) /\
  entry_padding (PyList [1; 2]) = None /\
  ~ (exists mb f,
       make_mini_batch 0 2 two_fields = (inr mb, two_fields) /\
       dict_get "a"%string (entries mb) = Some (Field f) /\
       padding_value f = zero).
Proof.
  split; [reflexivity|]. split; [reflexivity|]. split; [reflexivity|].
  intros (mb & f & Hrun & Hget & _).
  vm_compute in Hrun. injection Hrun as <-. discriminate Hget.
Qed.

(** C9 at [two_lists], the buffer that [make_mini_batch(0, 2)] returns on
    [two_fields]: [reset_agent] raises [AttributeError] at the first key,
    a list having no [reset_field], and leaves the buffer as it was, so
    no value of it ends without items. *)
Lemma reset_agent_on_plain_lists :
  make_mini_batch 0 2 two_fields = (inr two_lists, two_fields) /\
  reset_agent two_lists = (inl AttributeError, two_lists) /\
  ~ (exists buf',
       reset_agent two_lists = (inr tt, buf') /\
       forall k e', dict_get k (entries buf') = Some e' ->
         entry_items e' = []).
Proof.
  split; [reflexivity|]. split; [reflexivity|].
  intros (buf' & Hrun & _). discriminate Hrun.
Qed.

Lemma sample_mini_batch_new_fields_witness :
  RandomStateLaws CounterRandom /\ 1 <= 2 /\ 2 <= 2 /\ 0 <= 4 /\
  num_experiences two_fields = (inr 2, two_fields) /\
  exists mb g',
    sample_mini_batch 4 2 (two_fields, 0%nat)
    = (inr mb, (two_fields, g')) /\
    (forall k e, dict_get k (entries two_fields) = Some e ->
       exists f,
         dict_get k (entries mb) = Some (Field f) /\
         padding_value f = zero) /\
    (forall k e', dict_get k (entries mb) = Some e' ->
       exists f, e' = Field f /\ padding_value f = zero).
Proof.
  split; [exact CounterRandom_laws|]. split; [lia|]. split; [lia|].
  split; [lia|]. split; [reflexivity|].
  apply (sample_mini_batch_new_fields (N := ZNumpy) (R := CounterRandom)
           two_fields 4 2 2 0%nat CounterRandom_laws);
    [lia | lia | lia | reflexivity].
Defined.

(** C5 as stated fails: with [batch_size = 4] and [training_length = 2]
    the two items are one sequence, four are asked for, and
    [resequence_and_append] raises instead of padding. *)
Lemma resequence_4_2_raises :
  fst (resequence_and_append 0 1 (Some ["obs"%string]) (Some 4) (Some 2)
         two_buffers)
  = inl (BufferException BatchTooLarge) /\
  ~ (exists h' f,
       resequence_and_append 0 1 (Some ["obs"%string]) (Some 4) (Some 2)
         two_buffers = (inr tt, h') /\
       dict_get "obs"%string (entries (h' 1%nat)) = Some (Field f) /\
       len (items f) = 4).
Proof.
  split; [reflexivity|]. intros (h' & f & Hrun & _).
  apply (f_equal fst) in Hrun. discriminate Hrun.
Qed.

Lemma resequence_two_items_witness :
  0%nat <> 1%nat /\
  two_buffers 0%nat
  = mkBuffer [("obs"%string, Field (mkField [1; 2] 7))] None None /\
  two_buffers 1%nat = mkBuffer [] None None /\
  (exists e h',
     resequence_and_append 0 1 (Some ["obs"%string]) (Some 4) (Some 2)
       two_buffers = (inl e, h') /\
     OutOfRangeBatch e /\
     h' 0%nat = two_buffers 0%nat /\
     h' 1%nat = mkBuffer [("obs"%string, Field new_field)] None None) /\
  (forall batch_size, batch_size = Some 1 \/ batch_size = None ->
     exists h',
       resequence_and_append 0 1 (Some ["obs"%string]) batch_size (Some 4)
         two_buffers = (inr tt, h') /\
       h' 0%nat = two_buffers 0%nat /\
       h' 1%nat
       = mkBuffer
           [("obs"%string,
             Field (mkField [scale 2 7; scale 2 7; 1; 2] zero))]
           None None).
Proof.
  split; [discriminate|]. split; [reflexivity|]. split; [reflexivity|].
  apply (resequence_two_items (N := ZNumpy) two_buffers 0%nat 1%nat "obs"%string 1 2 7
           None None None None); [discriminate | reflexivity | reflexivity].
Defined.

(** ** The rest of the buffer *)


Lemma obs_list_list_to_obs_batch_transposes_witness :
  two_steps <> [] /\
  Forall2 (fun obs_list obs => nth_error obs_list 1 = Some obs)
    two_steps [[3; 4]; [7; 8]] /\
  Forall2 (fun obs x => nth_error obs 0 = Some x) [[3; 4]; [7; 8]] [3; 7] /\
  exists channels,
    nth_error (obs_list_list_to_obs_batch two_steps) 1 = Some channels /\
    nth_error channels 0 = Some (asanyarray [3; 7]).
Proof.
  split; [discriminate|]. split; [repeat constructor|].
  split; [repeat constructor|].
  apply (obs_list_list_to_obs_batch_transposes two_steps 1%nat 0%nat
           [[3; 4]; [7; 8]] [3; 7]);
    [discriminate | repeat constructor | repeat constructor].
Defined.

Lemma get_batch_sequential_suffix_witness :
  1 <= 2 /\ 0 <= 2 /\ 2 * 2 <= len (items five_items) /\
  get_batch (Some 2) (Some 2) true five_items
  = (inr (skipn (Z.to_nat (len (items five_items) - 2 * 2))
            (items five_items)), five_items) /\
  len (skipn (Z.to_nat (len (items five_items) - 2 * 2)) (items five_items))
  = 2 * 2.
Proof.
  split; [lia|]. split; [lia|]. split; [cbn; lia|].
  apply (get_batch_sequential_suffix five_items 2 2); cbn; lia.
Defined.

Lemma get_batch_whole_sequences_witness :
  1 <= 2 /\
  match fst (get_batch (Some 3) (Some 2) true five_items) with
  | inr batch => exists q, 0 <= q /\ len batch = q * 2
  | inl e =>
      OutOfRangeBatch e /\
      exists b0, Some 3 = Some b0 /\
        b0 > max_batch_size (len (items five_items)) 2 true
  end.
Proof.
  split; [lia|].
  apply (get_batch_whole_sequences five_items (Some 3) 2). lia.
Defined.

Lemma get_batch_overlapping_length_witness :
  0 <= 2 /\
  (forall b, 0 <= b <= len (items five_items) - 2 + 1 ->
     exists batch,
       get_batch (Some b) (Some 2) false five_items = (inr batch, five_items) /\
       len batch = b * 2) /\
  (exists batch,
     get_batch None (Some 2) false five_items = (inr batch, five_items) /\
     len batch = Z.max 0 (len (items five_items) - 2 + 1) * 2).
Proof.
  split; [lia|].
  apply (get_batch_overlapping_length five_items 2). lia.
Defined.

Lemma append_sets_the_padding_witness :
  1 <= 4 /\
  (append 6 9 ;; get_batch None (Some 4) true) five_items
  = (inr (replicate (scale 6 9)
            (if (len (items five_items) + 1) mod 4 =? 0
             then 0 else 4 - (len (items five_items) + 1) mod 4)
            ++ items five_items ++ [6]),
     mkField (items five_items ++ [6]) 9).
Proof.
  split; [lia|].
  apply (append_sets_the_padding five_items 6 9 4). lia.
Defined.

Lemma truncate_bounds_the_buffer_witness :
  1 <= 2 /\ 0 <= 3 /\ NoDup (dict_keys (entries unequal_fields)) /\
  exists cur buf',
    num_experiences unequal_fields = (inr cur, unequal_fields) /\
    truncate 3 2 unequal_fields = (inr tt, buf') /\
    num_experiences buf' = (inr (Z.min cur (3 - 3 mod 2)), buf') /\
    Z.min cur (3 - 3 mod 2) <= 3 /\
    truncate 3 2 buf' = (inr tt, buf').
Proof.
  split; [lia|]. split; [lia|]. split; [exact NoDup_a_b|].
  apply (truncate_bounds_the_buffer unequal_fields 3 2); [lia | lia|].
  exact NoDup_a_b.
Defined.

(** [make_mini_batch(-1, 9)]: the start counts from the end and the stop
    is clamped, so each value is the last item alone. *)
Example make_mini_batch_clamps :
  make_mini_batch (-1) 9 two_fields
  = (inr (mkBuffer [("a"%string, PyList [2]); ("b"%string, PyList [12])]
            None None),
     two_fields).
Proof. reflexivity. Qed.

Lemma make_mini_batch_splits_witness :
  0 <= 0 <= 1 /\ 1 <= 2 /\
  exists m1 m2 m3,
    make_mini_batch 0 1 two_fields = (inr m1, two_fields) /\
    make_mini_batch 1 2 two_fields = (inr m2, two_fields) /\
    make_mini_batch 0 2 two_fields = (inr m3, two_fields) /\
    forall k e, dict_get k (entries two_fields) = Some e ->
      exists l1 l2,
        dict_get k (entries m1) = Some (PyList l1) /\
        dict_get k (entries m2) = Some (PyList l2) /\
        dict_get k (entries m3) = Some (PyList (l1 ++ l2)) /\
        (0 = 0 -> len (entry_items e) <= 2 -> l1 ++ l2 = entry_items e).
Proof.
  split; [lia|]. split; [lia|].
  apply (proj2 (make_mini_batch_splits two_fields 0 1 2)); lia.
Defined.

Lemma mini_batch_cannot_be_reset_witness :
  entries two_fields <> [] /\
  exists mb,
    make_mini_batch 0 1 two_fields = (inr mb, two_fields) /\
    reset_agent mb = (inl AttributeError, mb).
Proof.
  split; [discriminate|].
  apply (mini_batch_cannot_be_reset two_fields 0 1). discriminate.
Defined.

Lemma shuffle_keeps_the_items_witness :
  RandomStateLaws CounterRandom /\ 1 <= 1 /\
  NoDup ["a"%string; "b"%string] /\ ["a"%string; "b"%string] <> [] /\
  same_length two_fields ["a"%string; "b"%string] 2 /\
  exists buf' g',
    shuffle 1 (Some ["a"%string; "b"%string]) (two_fields, 0%nat)
    = (inr tt, (buf', g')) /\
    dict_keys (entries buf') = dict_keys (entries two_fields) /\
    last_brain_info buf' = last_brain_info two_fields /\
    last_take_action_outputs buf' = last_take_action_outputs two_fields /\
    (forall k, ~ In k ["a"%string; "b"%string] ->
       dict_get k (entries buf') = dict_get k (entries two_fields)) /\
    (forall k e, In k ["a"%string; "b"%string] ->
       dict_get k (entries two_fields) = Some e ->
       exists e',
         dict_get k (entries buf') = Some e' /\
         entry_padding e' = entry_padding e /\
         Permutation (entry_items e')
           (firstn (Z.to_nat (2 / 1 * 1)) (entry_items e))).
Proof.
  split; [exact CounterRandom_laws|]. split; [lia|].
  split; [exact NoDup_a_b|]. split; [discriminate|].
  split; [exact two_fields_same_length|].
  apply (shuffle_keeps_the_items (R := CounterRandom) two_fields
           ["a"%string; "b"%string] 1 2 0%nat CounterRandom_laws);
    [lia | exact NoDup_a_b | discriminate | exact two_fields_same_length].
Defined.

Lemma shuffle_of_nothing_witness :
  (None = Some ([] : list string) \/
   (None = (None : option (list string)) /\ entries new_buffer = [])) /\
  shuffle 1 None (new_buffer, 0%nat) = (inl IndexError, (new_buffer, 0%nat)).
Proof.
  split; [right; split; reflexivity|].
  apply (shuffle_of_nothing (R := CounterRandom) new_buffer 1 None 0%nat).
  right. split; reflexivity.
Defined.

Lemma shuffle_creates_the_field_witness :
  RandomStateLaws CounterRandom /\ 1 <> 0 /\
  dict_get "c"%string (entries two_fields) = None /\
  shuffle 1 (Some ["c"%string]) (two_fields, 0%nat)
  = (inr tt,
     (store "c"%string (Field new_field) two_fields,
      snd (random_shuffle [] 0%nat))).
Proof.
  split; [exact CounterRandom_laws|]. split; [discriminate|].
  split; [reflexivity|].
  apply (shuffle_creates_the_field (R := CounterRandom) two_fields
           "c"%string 1 0%nat CounterRandom_laws);
    [discriminate | reflexivity].
Defined.

Lemma reset_agent_empties_witness :
  all_fields two_fields /\
  (forall k, In k ["a"%string; "b"%string] ->
     In k (dict_keys (entries two_fields))) /\
  exists buf',
    reset_agent two_fields = (inr tt, buf') /\
    num_experiences buf' = (inr 0, buf') /\
    check_length ["a"%string; "b"%string] buf' = (inr true, buf').
Proof.
  split; [exact two_fields_all_fields|]. split; [intros k H; exact H|].
  apply (reset_agent_empties two_fields ["a"%string; "b"%string]
           two_fields_all_fields).
  intros k H. exact H.
Defined.

Lemma two_fields_heap_fields k :
  In k ["a"%string; "b"%string] ->
  exists f, dict_get k (entries (two_fields_heap 0%nat)) = Some (Field f) /\
            len (items f) = 2.
Proof. intros [<-|[<-|[]]]; eexists; split; reflexivity. Qed.

Lemma resequence_extends_the_target_witness :
  0%nat <> 1%nat /\ NoDup ["a"%string; "b"%string] /\ 1 <= 4 /\
  (forall k, In k ["a"%string; "b"%string] ->
     exists f, dict_get k (entries (two_fields_heap 0%nat)) = Some (Field f) /\
               len (items f) = 2) /\
  ((None : option Z) = None \/
   exists b0, None = Some b0 /\ b0 <= max_batch_size 2 4 true) /\
  exists h',
    resequence_and_append 0 1 (Some ["a"%string; "b"%string]) None (Some 4)
      two_fields_heap = (inr tt, h') /\
    h' 0%nat = two_fields_heap 0%nat /\
    (forall k, In k ["a"%string; "b"%string] ->
       exists f batch e',
         dict_get k (entries (two_fields_heap 0%nat)) = Some (Field f) /\
         get_batch None (Some 4) true f = (inr batch, f) /\
         len batch = sequential_items 2 4 None /\
         dict_get k (entries (h' 1%nat)) = Some e' /\
         entry_items e' = items_under k (two_fields_heap 1%nat) ++ batch) /\
    (forall k, ~ In k ["a"%string; "b"%string] ->
       dict_get k (entries (h' 1%nat))
       = dict_get k (entries (two_fields_heap 1%nat))).
Proof.
  split; [discriminate|]. split; [exact NoDup_a_b|]. split; [lia|].
  split; [exact two_fields_heap_fields|]. split; [now left|].
  apply (resequence_extends_the_target two_fields_heap 0%nat 1%nat
           ["a"%string; "b"%string] None 4 2);
    [discriminate | exact NoDup_a_b | lia | exact two_fields_heap_fields
    | now left].
Defined.

Lemma resequence_needs_a_training_length_witness :
  fst (check_length ["a"%string; "b"%string] (two_fields_heap 0%nat))
  = inr true /\
  dict_get "a"%string (entries (two_fields_heap 0%nat))
  = Some (Field two_items) /\
  fst (resequence_and_append 0 1 (Some ["a"%string; "b"%string]) None None
         two_fields_heap) = inl TypeError.
Proof.
  split; [reflexivity|]. split; [reflexivity|].
  apply (resequence_needs_a_training_length two_fields_heap 0%nat 1%nat
           "a"%string ["b"%string] None two_items); reflexivity.
Defined.

Lemma resequence_onto_itself_witness :
  NoDup ["a"%string; "b"%string] /\ 1 <= 4 /\
  (forall k, In k ["a"%string; "b"%string] ->
     exists f, dict_get k (entries (two_fields_heap 0%nat)) = Some (Field f) /\
               len (items f) = 2) /\
  ((None : option Z) = None \/
   exists b0, None = Some b0 /\ b0 <= max_batch_size 2 4 true) /\
  exists h',
    resequence_and_append 0 0 (Some ["a"%string; "b"%string]) None (Some 4)
      two_fields_heap = (inr tt, h') /\
    (forall k, In k ["a"%string; "b"%string] ->
       exists f batch,
         dict_get k (entries (two_fields_heap 0%nat)) = Some (Field f) /\
         get_batch None (Some 4) true f = (inr batch, f) /\
         dict_get k (entries (h' 0%nat))
         = Some (Field (mkField (items f ++ batch) (padding_value f)))) /\
    (forall k, ~ In k ["a"%string; "b"%string] ->
       dict_get k (entries (h' 0%nat))
       = dict_get k (entries (two_fields_heap 0%nat))).
Proof.
  split; [exact NoDup_a_b|]. split; [lia|].
  split; [exact two_fields_heap_fields|]. split; [now left|].
  apply (resequence_onto_itself two_fields_heap 0%nat
           ["a"%string; "b"%string] None 4 2);
    [exact NoDup_a_b | lia | exact two_fields_heap_fields | now left].
Defined.
